(** * Drowsiness detection cloud service: path partitioning, uploads, buffering

    A shallow embedding of [drowsiness_cloud_service.py]:
    - [_get_s3_paths] (date partitioning of storage keys),
    - [S3Manager.upload_image] / [S3Manager.upload_jsonl] (bounded retry with
      exponential backoff),
    - [EventBuffer] (pending events and the flush timer),
    - [DrowsinessCloudService._process_event] and [_flush_event_buffer].

    Conventions of the embedding.
    - A Python [str] is a [string]; one [ascii] stands for one character.
    - A value decoded from JSON is a [pyval]; an event is a finite map from
      keys to such values.
    - What the process does not decide (bucket, file system, answers of the
      S3 backend, clock) is an [Env]: the backend answers the n-th request,
      the clock the n-th reading.  Clock readings and intervals are integers.
    - A [State] holds the counters of requests and readings, the trace of
      requests and sleeps performed, the event buffer and the statistics.
    - Methods are computations in the monad [M]: they take a state and return
      either a value or a raised exception, together with the new state.
    - [os.path] is the POSIX flavour.  Logging is not an observable effect. *)

From Stdlib Require Import ZArith Lia Ascii DecimalString.
From stdpp Require Import base option list gmap strings.

Local Open Scope Z_scope.
#[local] Set Warnings "-register-all".

(** ** Python strings *)

Module PyStr.

(** [s.split(sep)] for a one-character separator: every occurrence of the
    separator ends a token, so the result is never empty. *)
Fixpoint split (sep : ascii) (s : string) : list string :=
  match s with
  | EmptyString => [EmptyString]
  | String c s' =>
      if Ascii.eqb c sep then EmptyString :: split sep s'
      else match split sep s' with
           | t :: ts => String c t :: ts
           | [] => [String c EmptyString]
           end
  end.

(** [pat in s]: substring test. *)
Fixpoint contains (pat s : string) : bool :=
  String.prefix pat s ||
  match s with
  | EmptyString => false
  | String _ s' => contains pat s'
  end.

(** [s[:n]] and [s[n:]]. *)
Fixpoint take (n : nat) (s : string) : string :=
  match n, s with
  | S n', String c s' => String c (take n' s')
  | _, _ => EmptyString
  end.

Fixpoint drop (n : nat) (s : string) : string :=
  match n, s with
  | S n', String _ s' => drop n' s'
  | _, _ => s
  end.

Fixpoint has_slash (s : string) : bool :=
  match s with
  | EmptyString => false
  | String c s' => Ascii.eqb c "/"%char || has_slash s'
  end.

(** [os.path.basename(p)]: what follows the last slash. *)
Fixpoint basename (p : string) : string :=
  match p with
  | EmptyString => EmptyString
  | String c p' =>
      if Ascii.eqb c "/"%char || has_slash p' then basename p' else p
  end.

(** [sep.join(parts)]. *)
Fixpoint join (sep : string) (parts : list string) : string :=
  match parts with
  | [] => EmptyString
  | [p] => p
  | p :: ps => p +:+ sep +:+ join sep ps
  end.

(** [str(n)] for a non-negative integer. *)
Definition of_nat (n : nat) : string :=
  NilZero.string_of_uint (Nat.to_uint n).

(** [f"{n:02d}"]: decimal, padded with a zero to two characters. *)
Definition fmt_02d (n : nat) : string :=
  let s := of_nat n in
  if (String.length s <? 2)%nat then "0" +:+ s else s.

End PyStr.

(** The string ['\n']. *)
Definition LF : string := String "010"%char EmptyString.

(** Python list slicing [l[i:j]]. *)
Definition slice {A} (i j : nat) (l : list A) : list A :=
  take (j - i) (drop i l).

(** ** Values and events *)

(** What [json.loads] can produce.  Of a float only its truth value is
    observed by the code. *)
Inductive pyval :=
  | PNone
  | PBool (b : bool)
  | PInt (n : Z)
  | PFloat (nonzero : bool)
  | PStr (s : string)
  | PList (xs : list pyval)
  | PDict (kvs : list (string * pyval)).

(** Python truthiness. *)
Definition truthy (v : pyval) : bool :=
  match v with
  | PNone => false
  | PBool b => b
  | PInt n => negb (n =? 0)
  | PFloat nz => nz
  | PStr s => negb (String.eqb s "")
  | PList xs => negb (Nat.eqb (length xs) 0)
  | PDict kvs => negb (Nat.eqb (length kvs) 0)
  end.

(** [v != s] for a string literal [s]. *)
Definition ne_str (v : pyval) (s : string) : bool :=
  match v with
  | PStr s' => negb (String.eqb s' s)
  | _ => true
  end.

Abbreviation Event := (gmap string pyval).

(** [d.get(key, '')]. *)
Definition dict_get (d : Event) (key : string) : pyval :=
  default (PStr "") (d !! key).

(** ** Clocks *)

Module datetime.
Record t := {
  year : nat; month : nat; day : nat;
  hour : nat; minute : nat; second : nat
}.
End datetime.

(** One reading of the system clock: what [time.time()] and what
    [datetime.now()] answer at that instant. *)
Record instant := {
  time_time : Z;
  datetime_now : datetime.t
}.

(** [now.strftime("%H%M%S")]. *)
Definition strftime_HMS (now : datetime.t) : string :=
  PyStr.fmt_02d (datetime.hour now) +:+ PyStr.fmt_02d (datetime.minute now)
    +:+ PyStr.fmt_02d (datetime.second now).

(** [f"{now.year}/{now.month:02d}/{now.day:02d}"]. *)
Definition current_date_path (now : datetime.t) : string :=
  PyStr.of_nat (datetime.year now) +:+ "/"
    +:+ PyStr.fmt_02d (datetime.month now) +:+ "/"
    +:+ PyStr.fmt_02d (datetime.day now).

(** ** Exceptions and results *)

Inductive exn :=
  | ClientError
  | IndexError
  | AttributeError
  | TypeError
  | OtherError.

Inductive result (A : Type) :=
  | Ret (a : A)
  | Raise (e : exn).
Arguments Ret {A} a.
Arguments Raise {A} e.

(** ** The event buffer *)

Record EventBuffer := {
  events : list Event;
  flush_interval : Z;
  last_flush : Z
}.

(** [EventBuffer.__init__], given the reading of [time.time()]. *)
Definition EventBuffer_init (interval now : Z) : EventBuffer :=
  {| events := []; flush_interval := interval; last_flush := now |}.

(** The methods, as functions from the buffer (and the clock reading they
    take) to the returned value and the buffer afterwards. *)
Definition add_event (event : Event) (b : EventBuffer) : unit * EventBuffer :=
  (tt, {| events := events b ++ [event];
          flush_interval := flush_interval b;
          last_flush := last_flush b |}).

Definition should_flush (now : Z) (b : EventBuffer) : bool * EventBuffer :=
  (flush_interval b <=? now - last_flush b, b).

Definition get_and_clear_events (now : Z) (b : EventBuffer)
  : list Event * EventBuffer :=
  let copy := events b in
  (copy, {| events := []; flush_interval := flush_interval b;
            last_flush := now |}).

Definition get_count (b : EventBuffer) : nat * EventBuffer :=
  (length (events b), b).

(** A run of [add_event] calls, one per event of [es], in order. *)
Definition add_events (es : list Event) (b : EventBuffer) : EventBuffer :=
  foldl (λ b e, snd (add_event e b)) b es.

(** ** The world outside the process *)

(** The answer of the storage backend to one request. *)
Inductive response :=
  | Success
  | Fails (e : exn).

Inductive effect :=
  | UploadFile (local_path : pyval) (bucket key content_type : string)
  | PutObject (bucket key body content_type : string)
  | Sleep (seconds : Z).

(** What the environment decides: the bucket the service is configured for,
    the file system, and how the backend and the clock answer. *)
Record Env := {
  bucket_name : string;
  fs_exists : string → bool;
  fd_exists : Z → result bool;
  backend : nat → response;
  clock : nat → instant
}.

Record Stats := {
  events_received : nat;
  images_uploaded : nat;
  images_failed : nat;
  batches_uploaded : nat;
  batches_failed : nat
}.

Record State := {
  requests : nat;
  reads : nat;
  trace : list effect;
  event_buffer : EventBuffer;
  stats : Stats
}.

Definition emit (f : effect) (st : State) : State :=
  {| requests := requests st; reads := reads st; trace := trace st ++ [f];
     event_buffer := event_buffer st; stats := stats st |}.

Definition count_request (st : State) : State :=
  {| requests := S (requests st); reads := reads st; trace := trace st;
     event_buffer := event_buffer st; stats := stats st |}.

Definition count_read (st : State) : State :=
  {| requests := requests st; reads := S (reads st); trace := trace st;
     event_buffer := event_buffer st; stats := stats st |}.

Definition set_event_buffer (b : EventBuffer) (st : State) : State :=
  {| requests := requests st; reads := reads st; trace := trace st;
     event_buffer := b; stats := stats st |}.

Definition set_stats (s : Stats) (st : State) : State :=
  {| requests := requests st; reads := reads st; trace := trace st;
     event_buffer := event_buffer st; stats := s |}.

(** ** The monad of methods *)

Definition M (A : Type) : Type := State → result A * State.

#[global] Instance M_ret : MRet M := λ A a st, (Ret a, st).

#[global] Instance M_bind : MBind M := λ A B f m st,
  match m st with
  | (Ret a, st') => f a st'
  | (Raise e, st') => (Raise e, st')
  end.

#[global] Instance M_fmap : FMap M := λ A B f m,
  a ← m; mret (f a).

#[global] Instance M_throw : MThrow exn M := λ A e st, (Raise e, st).

(** [try: body except <catches>: handler]. *)
Definition try_except {A} (catches : exn → bool)
    (body : M A) (handler : exn → M A) : M A := λ st,
  match body st with
  | (Raise e, st') => if catches e then handler e st' else (Raise e, st')
  | r => r
  end.

(** [except Exception] and [except ClientError]. *)
Definition Exception (e : exn) : bool := true.

Definition is_ClientError (e : exn) : bool :=
  match e with ClientError => true | _ => false end.

(** [for i in range(n): body] followed by [orelse], where the body may
    return from the enclosing function ([Some]) or fall through ([None]). *)
Fixpoint for_from {A} (i count : nat) (body : nat → M (option A))
    (orelse : M A) : M A :=
  match count with
  | O => orelse
  | S count' =>
      r ← body i;
      match r with
      | Some a => mret a
      | None => for_from (S i) count' body orelse
      end
  end.

Definition for_range {A} (n : nat) (body : nat → M (option A))
    (orelse : M A) : M A :=
  for_from 0 n body orelse.

(** [l[i]]. *)
Definition index {A} (l : list A) (i : nat) : M A :=
  match l !! i with
  | Some x => mret x
  | None => mthrow IndexError
  end.

Definition on_buffer {A} (f : EventBuffer → A * EventBuffer) : M A := λ st,
  let '(a, b) := f (event_buffer st) in (Ret a, set_event_buffer b st).

Definition on_stats (f : Stats → Stats) : M unit := λ st,
  (Ret tt, set_stats (f (stats st)) st).

Definition incr_events_received (s : Stats) : Stats :=
  {| events_received := S (events_received s);
     images_uploaded := images_uploaded s; images_failed := images_failed s;
     batches_uploaded := batches_uploaded s;
     batches_failed := batches_failed s |}.

Definition incr_images_uploaded (s : Stats) : Stats :=
  {| events_received := events_received s;
     images_uploaded := S (images_uploaded s);
     images_failed := images_failed s;
     batches_uploaded := batches_uploaded s;
     batches_failed := batches_failed s |}.

Definition incr_images_failed (s : Stats) : Stats :=
  {| events_received := events_received s;
     images_uploaded := images_uploaded s;
     images_failed := S (images_failed s);
     batches_uploaded := batches_uploaded s;
     batches_failed := batches_failed s |}.

Definition incr_batches_uploaded (s : Stats) : Stats :=
  {| events_received := events_received s;
     images_uploaded := images_uploaded s; images_failed := images_failed s;
     batches_uploaded := S (batches_uploaded s);
     batches_failed := batches_failed s |}.

Definition incr_batches_failed (s : Stats) : Stats :=
  {| events_received := events_received s;
     images_uploaded := images_uploaded s; images_failed := images_failed s;
     batches_uploaded := batches_uploaded s;
     batches_failed := S (batches_failed s) |}.

(** The fixed table of [_get_s3_paths]. *)
Definition month_map : gmap string string :=
  list_to_map
    [("Jan", "01"); ("Feb", "02"); ("Mar", "03"); ("Apr", "04");
     ("May", "05"); ("Jun", "06"); ("Jul", "07"); ("Aug", "08");
     ("Sep", "09"); ("Oct", "10"); ("Nov", "11"); ("Dec", "12")].

Section Service.

Variable env : Env.

(** *** Primitive effects *)

(** One reading of the system clock. *)
Definition read_clock : M instant := λ st,
  (Ret (clock env (reads st)), count_read st).

Definition time_sleep (seconds : Z) : M unit := λ st,
  (Ret tt, emit (Sleep seconds) st).

(** One request to the backend: recorded, then answered. *)
Definition s3_request (f : effect) : M unit := λ st,
  (match backend env (requests st) with
   | Success => Ret tt
   | Fails e => Raise e
   end, count_request (emit f st)).

(** [os.path.exists]: a string is looked up in the file system, an
    integer is taken for a file descriptor, anything else is a type
    error. *)
Definition os_path_exists (path : pyval) : M bool :=
  match path with
  | PStr s => mret (fs_exists env s)
  | PInt n => λ st, (fd_exists env n, st)
  | PBool b => λ st, (fd_exists env (if b then 1 else 0), st)
  | _ => mthrow TypeError
  end.

Definition os_path_basename (p : pyval) : M string :=
  match p with
  | PStr s => mret (PyStr.basename s)
  | _ => mthrow TypeError
  end.

(** *** S3Manager *)

Definition upload_image (local_path : pyval) (s3_key : string)
    (retries : nat) : M bool :=
  found ← os_path_exists local_path;
  if negb found then mret false
  else
    for_range retries
      (λ attempt,
         try_except is_ClientError
           (s3_request
              (UploadFile local_path (bucket_name env) s3_key "image/jpeg");;
            mret (Some true))
           (λ _,
              (if (Z.of_nat attempt <? Z.of_nat retries - 1)
               then time_sleep (2 ^ Z.of_nat attempt)
               else mret tt);;
              mret None))
      (mret false).

Definition upload_jsonl (jsonl_content s3_key : string)
    (retries : nat) : M bool :=
  for_range retries
    (λ attempt,
       try_except is_ClientError
         (s3_request
            (PutObject (bucket_name env) s3_key jsonl_content
               "application/x-jsonlines");;
          mret (Some true))
         (λ _,
            (if (Z.of_nat attempt <? Z.of_nat retries - 1)
             then time_sleep (2 ^ Z.of_nat attempt)
             else mret tt);;
            mret None))
    (mret false).

(** *** DrowsinessCloudService *)

(** The body of the [try] of [_get_s3_paths]. *)
Definition _get_s3_paths_try (timestamp_str filename : pyval)
    : M (string * string) :=
  match timestamp_str with
  | PStr ts =>
      let dt_part := slice 1 3 (PyStr.split "_" ts) in
      year ← index dt_part 0;
      '(year, month, day) ←
        (if PyStr.contains "Aug27_2025" ts then
           let date_part := slice 0 2 (PyStr.split "_" ts) in
           d0 ← index date_part 0;
           let month_name := PyStr.take 3 d0 in
           let day := PyStr.drop 3 d0 in
           let month := default "01" (month_map !! month_name) in
           mret (year, month, day)
         else
           now ← datetime_now <$> read_clock;
           let month := PyStr.fmt_02d (datetime.month now) in
           let day := PyStr.fmt_02d (datetime.day now) in
           let year := PyStr.of_nat (datetime.year now) in
           mret (year, month, day));
      let date_path := year +:+ "/" +:+ month +:+ "/" +:+ day in
      base ← os_path_basename filename;
      let snapshot_key := "snapshots/" +:+ date_path +:+ "/" +:+ base in
      mret (snapshot_key, date_path)
  | _ => mthrow AttributeError
  end.

Definition _get_s3_paths (timestamp_str filename : pyval)
    : M (string * string) :=
  try_except Exception
    (_get_s3_paths_try timestamp_str filename)
    (λ _,
       now ← datetime_now <$> read_clock;
       let date_path := current_date_path now in
       base ← os_path_basename filename;
       let snapshot_key := "snapshots/" +:+ date_path +:+ "/" +:+ base in
       mret (snapshot_key, date_path)).

Definition _process_event (event_data : Event) : M unit :=
  try_except Exception
    (let timestamp := dict_get event_data "timestamp" in
     let image_path := dict_get event_data "image" in
     usable ←
       (if truthy image_path && ne_str image_path "failed_to_save"
        then os_path_exists image_path
        else mret false);
     event_data ←
       (if usable : bool then
          '(snapshot_key, date_path) ← _get_s3_paths timestamp image_path;
          uploaded ← upload_image image_path snapshot_key 3;
          if uploaded : bool then
            on_stats incr_images_uploaded;;
            mret (<["s3_image_path" := PStr snapshot_key]> event_data)
          else
            on_stats incr_images_failed;;
            mret (<["s3_image_path" := PStr "upload_failed"]> event_data)
        else
          mret (<["s3_image_path" := PStr "file_not_found"]> event_data));
     on_buffer (add_event event_data);;
     on_stats incr_events_received)
    (λ _, mret tt).

(** [json.dumps], the serialiser of the standard library. *)
Variable json_dumps : Event → string.

Definition _flush_event_buffer : M unit :=
  events ← (now ← time_time <$> read_clock;
            on_buffer (get_and_clear_events now));
  if bool_decide (events = []) then mret tt
  else
    try_except Exception
      (first_event ← index events 0;
       let timestamp := dict_get first_event "timestamp" in
       '(_, date_path) ← _get_s3_paths timestamp (PStr "");
       let jsonl_lines := json_dumps <$> events in
       let jsonl_content := PyStr.join LF jsonl_lines +:+ LF in
       current_time ← strftime_HMS <$> (datetime_now <$> read_clock);
       let logs_key :=
         "logs/" +:+ date_path +:+ "/events_" +:+ current_time
           +:+ ".jsonl" in
       uploaded ← upload_jsonl jsonl_content logs_key 3;
       if uploaded : bool then on_stats incr_batches_uploaded
       else on_stats incr_batches_failed)
      (λ _, on_stats incr_batches_failed).

End Service.

(** ** Vocabulary of the statements *)

(** The pair [_get_s3_paths] returns for a date prefix and a file name. *)
Definition paths_for (date_path filename : string) : string * string :=
  ("snapshots/" +:+ date_path +:+ "/" +:+ PyStr.basename filename, date_path).

(** The date prefix of the wall clock, at the next reading in [st]. *)
Definition wall_clock_date_path (env : Env) (st : State) : string :=
  current_date_path (datetime_now (clock env (reads st))).

(** [st] after [n] more requests and with [tr] appended to the trace. *)
Definition performed (n : nat) (tr : list effect) (st : State) : State :=
  {| requests := (requests st + n)%nat; reads := reads st;
     trace := trace st ++ tr;
     event_buffer := event_buffer st; stats := stats st |}.

(** What [n] attempts at the request [f] leave in the trace: the request
    [n] times, and between two consecutive ones a sleep of 1, 2, 4, ...
    seconds. *)
Definition attempts (f : effect) (n : nat) : list effect :=
  match n with
  | O => []
  | S n' => f :: flat_map (λ i, [Sleep (2 ^ Z.of_nat i); f]) (seq 0 n')
  end.

(** The retry policy with three attempts, for a call started in [st] that
    sends the request [f] and ends with [r].  The answers that count are the
    next three of the backend; an attempt is refused when it is answered
    with a [ClientError]. *)
Definition retry_policy (env : Env) (f : effect) (st : State)
    (r : result bool * State) : Prop :=
  let answer k := backend env (requests st + k)%nat in
  let refused k := answer k = Fails ClientError in
  (∃ n, (1 ≤ n ≤ 3)%nat ∧ snd r = performed n (attempts f n) st)
  ∧ (answer 0%nat = Success → r = (Ret true, performed 1 [f] st))
  ∧ (refused 0%nat → answer 1%nat = Success →
     r = (Ret true, performed 2 [f; Sleep 1; f] st))
  ∧ (refused 0%nat → refused 1%nat → answer 2%nat = Success →
     r = (Ret true, performed 3 [f; Sleep 1; f; Sleep 2; f] st))
  ∧ (refused 0%nat → refused 1%nat → refused 2%nat →
     r = (Ret false, performed 3 [f; Sleep 1; f; Sleep 2; f] st))
  ∧ (fst r = Ret false ↔ refused 0%nat ∧ refused 1%nat ∧ refused 2%nat).

(** The text of an archive: the serialisation of each event, in order,
    each followed by a newline. *)
Definition archive_body (json_dumps : Event → string) (es : list Event)
    : string :=
  foldr (λ e rest, json_dumps e +:+ LF +:+ rest) "" es.

(** How [_flush_event_buffer] counts a batch, given how the upload ended. *)
Definition count_batch (r : result bool) : Stats → Stats :=
  match r with
  | Ret true => incr_batches_uploaded
  | _ => incr_batches_failed
  end.

(** The value [_process_event] records under [s3_image_path] for the event
    [e] met in the state [st]: the sentinel for a missing file, the key under
    which the image was stored, or the sentinel for a failed upload. *)
Inductive image_outcome (env : Env) (st : State) (e : Event)
    : string → Prop :=
  | outcome_file_not_found :
      e !! "image" = None
      ∨ truthy (dict_get e "image") = false
      ∨ dict_get e "image" = PStr "failed_to_save"
      ∨ os_path_exists env (dict_get e "image") st = (Ret false, st) →
      image_outcome env st e "file_not_found"
  | outcome_uploaded (p date_path : string) (st1 st2 : State) :
      e !! "image" = Some (PStr p) →
      p ≠ "" → p ≠ "failed_to_save" → fs_exists env p = true →
      _get_s3_paths env (dict_get e "timestamp") (PStr p) st
        = (Ret (paths_for date_path p), st1) →
      upload_image env (PStr p) (fst (paths_for date_path p)) 3 st1
        = (Ret true, st2) →
      image_outcome env st e (fst (paths_for date_path p))
  | outcome_upload_failed (p date_path : string) (st1 st2 : State) :
      e !! "image" = Some (PStr p) →
      p ≠ "" → p ≠ "failed_to_save" → fs_exists env p = true →
      _get_s3_paths env (dict_get e "timestamp") (PStr p) st
        = (Ret (paths_for date_path p), st1) →
      upload_image env (PStr p) (fst (paths_for date_path p)) 3 st1
        = (Ret false, st2) →
      image_outcome env st e "upload_failed".

(** The ways [_process_event] gives an event up, buffering nothing: the
    image value passes the two tests on it, and then an exception escapes
    from [os.path.exists], from [_get_s3_paths] or from [upload_image]. *)
Inductive event_abandoned (env : Env) (st : State) (e : Event) : Prop :=
  | abandoned_by_exists (ex : exn) :
      truthy (dict_get e "image")
        && ne_str (dict_get e "image") "failed_to_save" = true →
      os_path_exists env (dict_get e "image") st = (Raise ex, st) →
      event_abandoned env st e
  | abandoned_by_paths (ex : exn) (st1 : State) :
      truthy (dict_get e "image")
        && ne_str (dict_get e "image") "failed_to_save" = true →
      os_path_exists env (dict_get e "image") st = (Ret true, st) →
      _get_s3_paths env (dict_get e "timestamp") (dict_get e "image") st
        = (Raise ex, st1) →
      event_abandoned env st e
  | abandoned_by_upload (p date_path : string) (ex : exn)
      (st1 st2 : State) :
      e !! "image" = Some (PStr p) →
      p ≠ "" → p ≠ "failed_to_save" → fs_exists env p = true →
      _get_s3_paths env (dict_get e "timestamp") (PStr p) st
        = (Ret (paths_for date_path p), st1) →
      upload_image env (PStr p) (fst (paths_for date_path p)) 3 st1
        = (Raise ex, st2) →
      event_abandoned env st e.

(** A buffered event is annotated when [s3_image_path] holds one of the
    two sentinels or a snapshot key for the event's own image. *)
Definition annotated (e : Event) : Prop :=
  ∃ v : string,
    e !! "s3_image_path" = Some (PStr v)
    ∧ (v = "file_not_found" ∨ v = "upload_failed"
       ∨ ∃ p date_path : string,
           e !! "image" = Some (PStr p)
           ∧ v = "snapshots/" +:+ date_path +:+ "/" +:+ PyStr.basename p).

(** A sample environment: one staged image, a clock stopped on
    2026-01-15 09:05:07, and a backend that refuses the first [refused]
    requests with a [ClientError]. *)
Definition sample_env (refused : nat) : Env :=
  {| bucket_name := "drowsiness-detection-data";
     fs_exists := λ p, String.eqb p "/tmp/img.jpg";
     fd_exists := λ _, Ret false;
     backend := λ n, if (n <? refused)%nat then Fails ClientError else Success;
     clock := λ n,
       {| time_time := 1000 + Z.of_nat n;
          datetime_now :=
            {| datetime.year := 2026; datetime.month := 1;
               datetime.day := 15; datetime.hour := 9;
               datetime.minute := 5; datetime.second := 7 |} |} |}.

Definition sample_state : State :=
  {| requests := 0; reads := 0; trace := [];
     event_buffer := EventBuffer_init 60 1000;
     stats := {| events_received := 0; images_uploaded := 0;
                 images_failed := 0; batches_uploaded := 0;
                 batches_failed := 0 |} |}.

(** An event as the detector publishes it, with its staged image. *)
Definition sample_event : Event :=
  {[ "timestamp" := PStr "Aug27_2025_06h47m10s_276";
     "image" := PStr "/tmp/img.jpg" ]}.

(** The sample state with two events pending. *)
Definition sample_pending : State :=
  set_event_buffer
    (add_events [sample_event; ∅] (EventBuffer_init 60 1000)) sample_state.

(** ** The buffer under its lock

    [EventBuffer] guards [events] with [self.lock].  To speak about what the
    lock buys, the methods are also given as the sequences of atomic
    operations they perform, run by threads that a scheduler interleaves.
    A step of a schedule names the thread that moves and the reading of
    [time.time()] available to it. *)

Module Threads.

Inductive op :=
  | Acquire                 (* entering [with self.lock] *)
  | Release                 (* leaving it *)
  | Append (event : Event)  (* [self.events.append(event)] *)
  | Copy                    (* [events = self.events.copy()] *)
  | Clear                   (* [self.events.clear()] *)
  | Stamp                   (* [self.last_flush = time.time()] *)
  | Len                     (* [len(self.events)] *)
  | Elapsed.                (* [time.time() - self.last_flush >= ...] *)

Definition add_event_body (event : Event) : list op :=
  [Acquire; Append event; Release].

Definition should_flush_body : list op := [Elapsed].

Definition get_and_clear_events_body : list op :=
  [Acquire; Copy; Clear; Stamp; Release].

Definition get_count_body : list op := [Acquire; Len; Release].

(** A thread: the operations it still has to perform and the local
    variable [events] of [get_and_clear_events]. *)
Record thread := {
  code : list op;
  local_events : list Event
}.

(** [arrivals] is a history variable: every event, in the order in which
    its append took effect. *)
Record config := {
  buffer : EventBuffer;
  holder : option nat;
  threads : list thread;
  arrivals : list Event
}.

Definition with_events (es : list Event) (b : EventBuffer) : EventBuffer :=
  {| events := es; flush_interval := flush_interval b;
     last_flush := last_flush b |}.

Definition with_last_flush (now : Z) (b : EventBuffer) : EventBuffer :=
  {| events := events b; flush_interval := flush_interval b;
     last_flush := now |}.

(** Thread [t] performs its next operation; [None] when it has none left
    or cannot move (the lock is taken, or is released while free). *)
Definition step (t : nat) (now : Z) (c : config) : option config :=
  th ← threads c !! t;
  match code th with
  | [] => None
  | o :: k =>
      let continue (l : list Event) (b : EventBuffer) (h : option nat)
          (a : list Event) :=
        Some {| buffer := b; holder := h;
                threads := <[t := {| code := k; local_events := l |}]>
                             (threads c);
                arrivals := a |} in
      let l := local_events th in
      let b := buffer c in
      match o with
      | Acquire =>
          match holder c with
          | None => continue l b (Some t) (arrivals c)
          | Some _ => None
          end
      | Release =>
          match holder c with
          | Some _ => continue l b None (arrivals c)
          | None => None
          end
      | Append e =>
          continue l (with_events (events b ++ [e]) b) (holder c)
            (arrivals c ++ [e])
      | Copy => continue (events b) b (holder c) (arrivals c)
      | Clear => continue l (with_events [] b) (holder c) (arrivals c)
      | Stamp => continue l (with_last_flush now b) (holder c) (arrivals c)
      | Len | Elapsed => continue l b (holder c) (arrivals c)
      end
  end.

Fixpoint run (sched : list (nat * Z)) (c : config) : option config :=
  match sched with
  | [] => Some c
  | (t, now) :: sched' => c' ← step t now c; run sched' c'
  end.

(** The discipline every method but [get_and_clear_events] follows: the
    list is touched only between an [Acquire] and the matching [Release];
    [held] tells whether the code starts inside such a block. *)
Fixpoint disciplined (held : bool) (k : list op) : bool :=
  match k with
  | [] => negb held
  | Acquire :: k' => negb held && disciplined true k'
  | Release :: k' => held && disciplined false k'
  | Append _ :: k' | Len :: k' => held && disciplined held k'
  | Elapsed :: k' => disciplined held k'
  | Copy :: _ | Clear :: _ | Stamp :: _ => false
  end.

(** The calls a thread other than the drainer makes. *)
Inductive call :=
  | call_add_event (event : Event)
  | call_should_flush
  | call_get_count.

Definition body (c : call) : list op :=
  match c with
  | call_add_event event => add_event_body event
  | call_should_flush => should_flush_body
  | call_get_count => get_count_body
  end.

(** All threads but [d] follow the discipline, given who holds the lock. *)
Definition others_disciplined (d : nat) (c : config) : bool :=
  forallb
    (λ '(t, th),
       bool_decide (t = d)
       || disciplined (bool_decide (holder c = Some t)) (code th))
    (imap pair (threads c)).

Definition follows_discipline (d : nat) (c : config) : Prop :=
  ∀ (t : nat) (th : thread),
    t ≠ d → threads c !! t = Some th →
    disciplined (bool_decide (holder c = Some t)) (code th) = true.

(** Where thread [d] stands in its call of [get_and_clear_events], [es]
    being the events appended since the configuration with buffer [b0]
    and arrivals [a0], and [done] the steps taken since. *)
Inductive progress (b0 : EventBuffer) (a0 : list Event) (d : nat)
    (done : list (nat * Z)) (c : config) : Prop :=
  | before_acquire (es l : list Event) :
      threads c !! d
        = Some {| code := get_and_clear_events_body; local_events := l |} →
      holder c ≠ Some d →
      buffer c = add_events es b0 →
      arrivals c = a0 ++ es →
      progress b0 a0 d done c
  | before_copy (es l : list Event) :
      threads c !! d
        = Some {| code := [Copy; Clear; Stamp; Release];
                  local_events := l |} →
      holder c = Some d →
      buffer c = add_events es b0 →
      arrivals c = a0 ++ es →
      progress b0 a0 d done c
  | before_clear (es : list Event) :
      threads c !! d
        = Some {| code := [Clear; Stamp; Release];
                  local_events := events (add_events es b0) |} →
      holder c = Some d →
      buffer c = add_events es b0 →
      arrivals c = a0 ++ es →
      progress b0 a0 d done c
  | before_stamp (es : list Event) :
      threads c !! d
        = Some {| code := [Stamp; Release];
                  local_events := events (add_events es b0) |} →
      holder c = Some d →
      buffer c = with_events [] (add_events es b0) →
      arrivals c = a0 ++ es →
      progress b0 a0 d done c
  | before_release (es : list Event) (now : Z) :
      threads c !! d
        = Some {| code := [Release];
                  local_events :=
                    fst (get_and_clear_events now (add_events es b0)) |} →
      holder c = Some d →
      buffer c = snd (get_and_clear_events now (add_events es b0)) →
      arrivals c = a0 ++ es →
      (d, now) ∈ done →
      progress b0 a0 d done c
  | returned (es1 es2 : list Event) (now : Z) :
      threads c !! d
        = Some {| code := [];
                  local_events :=
                    fst (get_and_clear_events now (add_events es1 b0)) |} →
      holder c ≠ Some d →
      buffer c
        = add_events es2
            (snd (get_and_clear_events now (add_events es1 b0))) →
      arrivals c = a0 ++ es1 ++ es2 →
      (d, now) ∈ done →
      progress b0 a0 d done c.

(** Two producers and a consumer: threads 0 and 2 append, thread 1
    drains. *)
Definition sample_config (a b : Event) : config :=
  {| buffer := EventBuffer_init 60 1000;
     holder := None;
     threads :=
       [ {| code := add_event_body a ++ should_flush_body;
            local_events := [] |};
         {| code := get_and_clear_events_body; local_events := [] |};
         {| code := add_event_body b ++ get_count_body;
            local_events := [] |} ];
     arrivals := [] |}.

(** Thread 0 appends; thread 1 starts draining; thread 2 waits for the
    lock, appends and counts once it is free; the clock reads 1007 when
    thread 1 stamps. *)
Definition sample_schedule : list (nat * Z) :=
  [(0%nat, 1001); (0%nat, 1002); (0%nat, 1003); (1%nat, 1004);
   (1%nat, 1005); (0%nat, 1006); (1%nat, 1006); (1%nat, 1007);
   (1%nat, 1008); (2%nat, 1009); (2%nat, 1010); (2%nat, 1011)].

End Threads.

(** ** Vocabulary of the further statements *)

(** The body of the loop of [upload_image] and [upload_jsonl], for the
    request [f]. *)
Definition attempt_body (env : Env) (f : effect) (retries : nat)
    : nat → M (option bool) :=
  λ attempt,
    try_except is_ClientError
      (s3_request env f;; mret (Some true))
      (λ _,
         (if (Z.of_nat attempt <? Z.of_nat retries - 1)
          then time_sleep (2 ^ Z.of_nat attempt)
          else mret tt);;
         mret None).

(** What [k] refused attempts numbered from [i] leave in the trace. *)
Definition refusals (f : effect) (retries i k : nat) : list effect :=
  flat_map
    (λ j, f :: if (Z.of_nat j <? Z.of_nat retries - 1)
               then [Sleep (2 ^ Z.of_nat j)] else [])
    (seq i k).

(** The seconds slept in a trace. *)
Definition slept (tr : list effect) : Z :=
  foldr (λ f s, match f with Sleep n => n + s | _ => s end) 0 tr.

Definition is_request (f : effect) : bool :=
  match f with Sleep _ => false | _ => true end.

(** The sample environment with a backend that answers the first [refused]
    requests with a [ClientError] and every later one with [answer]. *)
Definition sample_env_then (refused : nat) (answer : response) : Env :=
  {| bucket_name := bucket_name (sample_env 0);
     fs_exists := fs_exists (sample_env 0);
     fd_exists := fd_exists (sample_env 0);
     backend := λ n, if (n <? refused)%nat then Fails ClientError else answer;
     clock := clock (sample_env 0) |}.

(** A caller's use of the buffer: a sequence of method calls, each drain
    and each timer check with the clock reading it takes. *)
Inductive buffer_call :=
  | calls_add_event (event : Event)
  | calls_get_and_clear_events (now : Z)
  | calls_get_count
  | calls_should_flush (now : Z).

(** The calls in order: the batches the drains returned, and the buffer
    left. *)
Fixpoint run_calls (cs : list buffer_call) (b : EventBuffer)
    : list (list Event) * EventBuffer :=
  match cs with
  | [] => ([], b)
  | calls_add_event e :: cs' => run_calls cs' (snd (add_event e b))
  | calls_get_and_clear_events now :: cs' =>
      let '(batch, b1) := get_and_clear_events now b in
      let '(batches, b2) := run_calls cs' b1 in
      (batch :: batches, b2)
  | calls_get_count :: cs' => run_calls cs' (snd (get_count b))
  | calls_should_flush now :: cs' => run_calls cs' (snd (should_flush now b))
  end.

(** The events the calls add, and the reading of the last drain among them
    ([t0] when there is none). *)
Fixpoint added (cs : list buffer_call) : list Event :=
  match cs with
  | [] => []
  | calls_add_event e :: cs' => e :: added cs'
  | _ :: cs' => added cs'
  end.

Fixpoint last_drain (cs : list buffer_call) (t0 : Z) : Z :=
  match cs with
  | [] => t0
  | calls_get_and_clear_events now :: cs' => last_drain cs' now
  | _ :: cs' => last_drain cs' t0
  end.

(** Whether the character [c] occurs in [s]. *)
Fixpoint has_char (c : ascii) (s : string) : bool :=
  match s with
  | EmptyString => false
  | String x s' => Ascii.eqb x c || has_char c s'
  end.

(** Whether a value is a string. *)
Definition is_str (v : pyval) : bool :=
  match v with PStr _ => true | _ => false end.

(** The state once [_process_event] has recorded the outcome [v] in the
    event and buffered it. *)
Definition buffered (v : string) (e : Event) (st : State) : State :=
  let st1 :=
    set_event_buffer
      (snd (add_event (<["s3_image_path" := PStr v]> e) (event_buffer st)))
      st in
  set_stats (incr_events_received (stats st1)) st1.

(** [_process_event] on each event of a list, in order. *)
Definition process_all (env : Env) (es : list Event) (st : State) : State :=
  foldl (λ st e, snd (_process_event env e st)) st es.

(** Whether the event carries the outcome [v], and whether it carries a
    snapshot key. *)
Definition outcome_is (v : string) (e : Event) : bool :=
  match e !! "s3_image_path" with
  | Some (PStr s) => String.eqb s v
  | _ => false
  end.

Definition has_snapshot_key (e : Event) : bool :=
  match e !! "s3_image_path" with
  | Some (PStr s) => String.prefix "snapshots/" s
  | _ => false
  end.

Fixpoint count_if {A} (f : A → bool) (l : list A) : nat :=
  match l with
  | [] => 0%nat
  | x :: l' => ((if f x then 1 else 0) + count_if f l')%nat
  end.

(** The state after the drain that opens [_flush_event_buffer]. *)
Definition drained (env : Env) (st : State) : State :=
  set_event_buffer
    (snd (get_and_clear_events (time_time (clock env (reads st)))
            (event_buffer st)))
    (count_read st).

(** An event whose image is staged: the field names an existing file and is
    not the sentinel of a failed capture. *)
Definition staged (env : Env) (e : Event) : Prop :=
  ∃ p : string,
    e !! "image" = Some (PStr p)
    ∧ p ≠ "" ∧ p ≠ "failed_to_save" ∧ fs_exists env p = true.

(** [e'] is [e] with a snapshot key recorded. *)
Definition stored_as (e e' : Event) : Prop :=
  ∃ key : string,
    String.prefix "snapshots/" key = true
    ∧ e' = <["s3_image_path" := PStr key]> e.

(** ** The service around its core: report, shutdown, main loop

    The socket of the subscription is part of the environment, like the
    backend: [recv_string] answers the n-th poll with a message, with
    [zmq.Again] when none is waiting, or with another exception;
    [json.loads] decodes a message into a JSON object, into another JSON
    value, or raises.  The pauses of the loop are kept apart from the trace
    of the uploads. *)

Inductive received :=
  | message (m : string)
  | again
  | recv_raises (e : exn).

Inductive loaded :=
  | loaded_dict (e : Event)
  | loaded_other (v : pyval)
  | decode_error
  | loads_raises (e : exn).

Record Inbox := {
  recv_string : nat → received;
  json_loads : string → loaded
}.

Inductive nap :=
  | short_nap   (* [time.sleep(0.01)] *)
  | long_nap.   (* [time.sleep(1)] *)

Record Service := {
  core : State;
  running : bool;
  subscriber_closed : bool;
  context_terminated : bool;
  polls : nat;
  naps : list nap
}.

Definition MS (A : Type) : Type := Service → result A * Service.

#[global] Instance MS_ret : MRet MS := λ A a s, (Ret a, s).

#[global] Instance MS_bind : MBind MS := λ A B f m s,
  match m s with
  | (Ret a, s') => f a s'
  | (Raise e, s') => (Raise e, s')
  end.

Definition set_core (st : State) (s : Service) : Service :=
  {| core := st; running := running s;
     subscriber_closed := subscriber_closed s;
     context_terminated := context_terminated s;
     polls := polls s; naps := naps s |}.

(** A method of the core run inside the service. *)
Definition on_core {A} (m : M A) : MS A := λ s,
  let '(r, st) := m (core s) in (r, set_core st s).

Definition set_running (b : bool) : MS unit := λ s,
  (Ret tt, {| core := core s; running := b;
              subscriber_closed := subscriber_closed s;
              context_terminated := context_terminated s;
              polls := polls s; naps := naps s |}).

Definition subscriber_close : MS unit := λ s,
  (Ret tt, {| core := core s; running := running s;
              subscriber_closed := true;
              context_terminated := context_terminated s;
              polls := polls s; naps := naps s |}).

Definition context_term : MS unit := λ s,
  (Ret tt, {| core := core s; running := running s;
              subscriber_closed := subscriber_closed s;
              context_terminated := true;
              polls := polls s; naps := naps s |}).

Definition take_nap (n : nap) : MS unit := λ s,
  (Ret tt, {| core := core s; running := running s;
              subscriber_closed := subscriber_closed s;
              context_terminated := context_terminated s;
              polls := polls s; naps := naps s ++ [n] |}).

Definition polled (s : Service) : Service :=
  {| core := core s; running := running s;
     subscriber_closed := subscriber_closed s;
     context_terminated := context_terminated s;
     polls := S (polls s); naps := naps s |}.

Section Lifecycle.

Variable env : Env.
Variable json_dumps : Event → string.
Variable inbox : Inbox.
Variable stats_interval : Z.

(** [_print_stats]: it reads the clock for the uptime and asks the buffer
    for its count; the rest is logging. *)
Definition _print_stats : M unit :=
  uptime ← time_time <$> read_clock env;
  buffer_count ← on_buffer get_count;
  mret tt.

Definition shutdown : MS unit :=
  set_running false;;
  count ← on_core (on_buffer get_count);
  (if (0 <? count)%nat
   then on_core (_flush_event_buffer env json_dumps)
   else mret tt);;
  subscriber_close;;
  context_term;;
  on_core _print_stats.

(** One turn of the loop of [run], from the check of the flush to the
    short sleep, given [last_stats_time]; it returns the new value of that
    variable. *)
Definition after_receive (last_stats_time : Z) : MS Z :=
  due ← on_core (now ← time_time <$> read_clock env;
                 on_buffer (should_flush now));
  (if due : bool
   then on_core (_flush_event_buffer env json_dumps)
   else mret tt);;
  now ← on_core (time_time <$> read_clock env);
  last ← (if stats_interval <? now - last_stats_time
          then on_core _print_stats;;
               on_core (time_time <$> read_clock env)
          else mret last_stats_time);
  take_nap short_nap;;
  mret last.

(** The [except Exception] of the loop: log, sleep a second, go on. *)
Definition handled (last_stats_time : Z) (r : result Z * Service)
    : Z * Service :=
  match r with
  | (Ret last, s) => (last, s)
  | (Raise _, s) => (last_stats_time, snd (take_nap long_nap s))
  end.

(** One turn of the loop.  A message that does not decode makes the loop
    [continue]; a JSON value that is no object has no [get], which the
    [except] of [_process_event] answers. *)
Definition iteration (last_stats_time : Z) (s : Service) : Z * Service :=
  match recv_string inbox (polls s) with
  | recv_raises e => handled last_stats_time (Raise e, polled s)
  | again => handled last_stats_time (after_receive last_stats_time (polled s))
  | message m =>
      match json_loads inbox m with
      | decode_error => (last_stats_time, polled s)
      | loads_raises e => handled last_stats_time (Raise e, polled s)
      | loaded_dict e =>
          handled last_stats_time
            ((on_core (_process_event env e);;
              after_receive last_stats_time) (polled s))
      | loaded_other _ =>
          handled last_stats_time (after_receive last_stats_time (polled s))
      end
  end.

(** [n] turns of [while self.running]. *)
Fixpoint turns (n : nat) (last_stats_time : Z) (s : Service) : Z * Service :=
  match n with
  | O => (last_stats_time, s)
  | S n' =>
      if running s then
        let '(last, s') := iteration last_stats_time s in
        turns n' last s'
      else (last_stats_time, s)
  end.

End Lifecycle.

(** The core as the receiving part of a turn leaves it: a JSON object is
    processed, anything else leaves the core alone. *)
Definition received_core (env : Env) (inbox : Inbox) (s : Service) : State :=
  match recv_string inbox (polls s) with
  | message m =>
      match json_loads inbox m with
      | loaded_dict e => snd (_process_event env e (core s))
      | _ => core s
      end
  | _ => core s
  end.

(** The turns that get as far as the check of the flush. *)
Definition reaches_flush_check (inbox : Inbox) (s : Service) : bool :=
  match recv_string inbox (polls s) with
  | message m =>
      match json_loads inbox m with
      | loaded_dict _ | loaded_other _ => true
      | decode_error | loads_raises _ => false
      end
  | again => true
  | recv_raises _ => false
  end.


(** A running service with two events pending, whose last flush is a
    hundred seconds old. *)
Definition sample_service : Service :=
  {| core :=
       set_event_buffer
         (add_events [sample_event; ∅] (EventBuffer_init 60 900))
         sample_state;
     running := true;
     subscriber_closed := false; context_terminated := false;
     polls := 0; naps := [] |}.

(** An inbox that only ever delivers text that is not JSON, and one that
    never has a message. *)
Definition noisy_inbox : Inbox :=
  {| recv_string := λ _, message "not json";
     json_loads := λ _, decode_error |}.

Definition quiet_inbox : Inbox :=
  {| recv_string := λ _, again;
     json_loads := λ _, decode_error |}.

(** * Properties *)

Ltac unfold_M :=
  unfold mbind, M_bind, mret, M_ret, fmap, M_fmap, mthrow, M_throw,
    try_except, index, read_clock, os_path_basename, os_path_exists in *.

Lemma bind_run {A B} (m : M A) (f : A → M B) (st : State) :
  (m ≫= f) st =
  match m st with
  | (Ret a, st') => f a st'
  | (Raise e, st') => (Raise e, st')
  end.
Proof. reflexivity. Qed.

Lemma for_from_run {A} (i count : nat) (body : nat → M (option A))
    (orelse : M A) (st : State) :
  for_from i (S count) body orelse st
  = match body i st with
    | (Ret (Some a), st') => (Ret a, st')
    | (Ret None, st') => for_from (S i) count body orelse st'
    | (Raise e, st') => (Raise e, st')
    end.
Proof.
  cbn [for_from]. rewrite bind_run. by destruct (body i st) as [[[]|]].
Qed.

(** ** Strings *)

Lemma take_app_length (a b : string) :
  PyStr.take (String.length a) (a +:+ b) = a.
Proof. induction a as [|c a IH]; [by destruct b|]. simpl. by rewrite IH. Qed.

Lemma drop_app_length (a b : string) :
  PyStr.drop (String.length a) (a +:+ b) = b.
Proof. induction a as [|c a IH]; [by destruct b|]. done. Qed.

Lemma append_assoc (a b c : string) : (a +:+ b) +:+ c = a +:+ b +:+ c.
Proof.
  induction a as [|x a IH]; [done|].
  change (String x ((a +:+ b) +:+ c) = String x (a +:+ b +:+ c)).
  by rewrite IH.
Qed.

Lemma month_map_key_length (mon mm : string) :
  month_map !! mon = Some mm → String.length mon = 3%nat.
Proof.
  intros H. apply elem_of_list_to_map_2 in H.
  repeat (apply elem_of_cons in H as [H|H]; [by inversion H|]).
  by apply elem_of_nil in H.
Qed.

(** ** Path partitioning *)

(** What [_get_s3_paths] computes on strings: with at least two tokens and
    the literal in the timestamp, the tokens decide; in every other case the
    wall clock is read once and decides. *)
Lemma get_s3_paths_str (env : Env) (ts fn : string) (st : State) :
  _get_s3_paths env (PStr ts) (PStr fn) st =
  match PyStr.split "_" ts with
  | t0 :: t1 :: _ =>
      if PyStr.contains "Aug27_2025" ts
      then (Ret (paths_for
                   (t1 +:+ "/" +:+ default "01" (month_map !! PyStr.take 3 t0)
                       +:+ "/" +:+ PyStr.drop 3 t0) fn), st)
      else (Ret (paths_for (wall_clock_date_path env st) fn), count_read st)
  | _ => (Ret (paths_for (wall_clock_date_path env st) fn), count_read st)
  end.
Proof.
  unfold _get_s3_paths, _get_s3_paths_try, slice.
  destruct (PyStr.split "_" ts) as [|t0 [|t1 rest]]; try reflexivity.
  unfold_M. cbn.
  destruct (PyStr.contains "Aug27_2025" ts); reflexivity.
Qed.

(** The body of the [try] raises exactly when the timestamp has no
    underscore, and then reads no clock. *)
Lemma get_s3_paths_try_raises (env : Env) (ts fn : string) (st : State)
    (e : exn) (st1 : State) :
  _get_s3_paths_try env (PStr ts) (PStr fn) st = (Raise e, st1) →
  e = IndexError ∧ st1 = st.
Proof.
  unfold _get_s3_paths_try, slice.
  destruct (PyStr.split "_" ts) as [|t0 [|t1 rest]]; unfold_M; cbn.
  - by inversion 1.
  - by inversion 1.
  - destruct (PyStr.contains "Aug27_2025" ts); cbn; inversion 1.
Qed.

(** C6: on the timestamp "Aug27_2025_06h47m10s_276" and the file name
    "img.jpg", [_get_s3_paths] returns the snapshot key
    "snapshots/2025/08/27/img.jpg" and the date prefix "2025/08/27", in
    every environment and state, which it leaves as it was. *)
Theorem get_s3_paths_Aug27 (env : Env) (st : State) :
  _get_s3_paths env (PStr "Aug27_2025_06h47m10s_276") (PStr "img.jpg") st
  = (Ret ("snapshots/2025/08/27/img.jpg", "2025/08/27"), st).
Proof. reflexivity. Qed.

(** C10: [_get_s3_paths] is total on strings.  For every timestamp and
    file name it returns (never raises) a pair
    [(snapshot_key, date_path)] with
    [snapshot_key = "snapshots/" + date_path + "/" + basename(filename)];
    and whenever the body of its [try] raises, the handler answers with the
    date prefix of the wall clock. *)
Theorem get_s3_paths_total (env : Env) (ts fn : string) (st : State) :
  ∃ (date_path : string) (st' : State),
    _get_s3_paths env (PStr ts) (PStr fn) st
    = (Ret ("snapshots/" +:+ date_path +:+ "/" +:+ PyStr.basename fn,
            date_path), st')
    ∧ ∀ e st1,
        _get_s3_paths_try env (PStr ts) (PStr fn) st = (Raise e, st1) →
        date_path = current_date_path (datetime_now (clock env (reads st1)))
        ∧ st' = count_read st1.
Proof.
  unfold _get_s3_paths, try_except.
  destruct (_get_s3_paths_try env (PStr ts) (PStr fn) st) as [[[k dp]|e] st1]
    eqn:Htry.
  - exists dp, st1. split; [|by inversion 1].
    revert Htry. unfold _get_s3_paths_try, slice.
    destruct (PyStr.split "_" ts) as [|t0 [|t1 rest]]; unfold_M; cbn;
      try by inversion 1.
    destruct (PyStr.contains "Aug27_2025" ts); cbn; by inversion 1.
  - exists (current_date_path (datetime_now (clock env (reads st1)))),
      (count_read st1).
    split; [reflexivity|]. by inversion 1.
Qed.

Lemma get_s3_paths_total_empty :
  ∃ (date_path : string) (st' : State),
    _get_s3_paths (sample_env 0) (PStr "") (PStr "") sample_state
    = (Ret ("snapshots/" +:+ date_path +:+ "/" +:+ "", date_path), st')
    ∧ date_path = "2026/01/15".
Proof.
  destruct (get_s3_paths_total (sample_env 0) "" "" sample_state)
    as (dp & st' & Hrun & Hraised).
  exists dp, st'. split; [exact Hrun|].
  destruct (Hraised IndexError sample_state eq_refl) as [-> _].
  reflexivity.
Defined.

(** C5: a timestamp that does not match the session pattern the code
    tests for, that is, does not contain the literal "Aug27_2025", is
    ignored: the result is built from the date of the wall clock, read once
    at the call, and is the same for every such timestamp. *)
Theorem get_s3_paths_fallback (env : Env) (ts fn : string) (st : State) :
  PyStr.contains "Aug27_2025" ts = false →
  _get_s3_paths env (PStr ts) (PStr fn) st
  = (Ret (paths_for (wall_clock_date_path env st) fn), count_read st).
Proof.
  intros Hno. rewrite get_s3_paths_str, Hno.
  by destruct (PyStr.split "_" ts) as [|t0 [|t1 rest]].
Qed.

Lemma get_s3_paths_fallback_iso :
  PyStr.contains "Aug27_2025" "2025-08-27T06:47:10Z" = false
  ∧ _get_s3_paths (sample_env 0) (PStr "2025-08-27T06:47:10Z")
      (PStr "img.jpg") sample_state
    = (Ret ("snapshots/2026/01/15/img.jpg", "2026/01/15"),
       count_read sample_state).
Proof.
  split; [reflexivity|].
  apply (get_s3_paths_fallback (sample_env 0) "2025-08-27T06:47:10Z"
           "img.jpg" sample_state).
  reflexivity.
Defined.

(** C1 as stated fails: "Sep03_2025_10h00m00s_000" has a month
    abbreviation and day in its first token and a year in its second, yet
    the result carries the date of the wall clock (2026-01-15 in the sample
    environment), not 2025/09/03. *)
Lemma get_s3_paths_Sep03_uses_wall_clock :
  let r := _get_s3_paths (sample_env 0) (PStr "Sep03_2025_10h00m00s_000")
             (PStr "img.jpg") sample_state in
  r = (Ret ("snapshots/2026/01/15/img.jpg", "2026/01/15"),
       count_read sample_state)
  ∧ fst r ≠ Ret ("snapshots/2025/09/03/img.jpg", "2025/09/03").
Proof. split; [reflexivity|]. cbv. discriminate. Qed.

(** C1, amended: when the timestamp moreover contains the literal
    "Aug27_2025", a first token made of a month abbreviation of the table
    and a day part, followed by a second token, decides the prefix:
    second token, month number of the table, rest of the first token.
    No clock is read. *)
Theorem get_s3_paths_parses_tokens (env : Env) (st : State)
    (ts fn mon dd yyyy mm : string) (rest : list string) :
  PyStr.split "_" ts = (mon +:+ dd) :: yyyy :: rest →
  month_map !! mon = Some mm →
  PyStr.contains "Aug27_2025" ts = true →
  _get_s3_paths env (PStr ts) (PStr fn) st
  = (Ret (paths_for (yyyy +:+ "/" +:+ mm +:+ "/" +:+ dd) fn), st).
Proof.
  intros Hsplit Hmon Hlit.
  rewrite get_s3_paths_str, Hsplit, Hlit.
  pose proof (month_map_key_length _ _ Hmon) as Hlen.
  rewrite <- Hlen at 1 2.
  by rewrite take_app_length, drop_app_length, Hmon.
Qed.

Lemma get_s3_paths_parses_tokens_Sep03 :
  _get_s3_paths (sample_env 0) (PStr "Sep03_2025_Aug27_2025")
    (PStr "/tmp/img.jpg") sample_state
  = (Ret ("snapshots/2025/09/03/img.jpg", "2025/09/03"), sample_state).
Proof.
  apply (get_s3_paths_parses_tokens (sample_env 0) sample_state
           "Sep03_2025_Aug27_2025" "/tmp/img.jpg" "Sep" "03" "2025" "09"
           ["Aug27"; "2025"]); reflexivity.
Defined.

(** ** Uploads *)

(** One attempt of the retry loops: the request is sent; a [ClientError]
    is caught, followed by a sleep unless the attempt was the last. *)
Lemma attempt_run (env : Env) (f : effect) (retries attempt : nat)
    (st : State) :
  try_except is_ClientError
    (s3_request env f;; mret (Some true))
    (λ _,
       (if (Z.of_nat attempt <? Z.of_nat retries - 1)
        then time_sleep (2 ^ Z.of_nat attempt)
        else mret tt);;
       mret None) st
  = match backend env (requests st) with
    | Success => (Ret (Some true), performed 1 [f] st)
    | Fails ClientError =>
        (Ret None,
         performed 1
           (f :: if (Z.of_nat attempt <? Z.of_nat retries - 1)
                 then [Sleep (2 ^ Z.of_nat attempt)] else [])
           st)
    | Fails e => (Raise e, performed 1 [f] st)
    end.
Proof.
  unfold try_except, s3_request, time_sleep, performed, count_request, emit.
  rewrite bind_run.
  destruct (backend env (requests st)) as [|[]];
    cbn -[Z.of_nat Z.pow Z.ltb Z.sub]; rewrite ?Nat.add_1_r;
    try reflexivity.
  destruct (Z.of_nat attempt <? Z.of_nat retries - 1);
    unfold mbind, M_bind, mret, M_ret; cbn -[Z.of_nat Z.pow];
    rewrite <- ?(assoc_L (++)), ?app_nil_r; reflexivity.
Qed.

Lemma performed_performed (n m : nat) (tr tr' : list effect) (st : State) :
  performed m tr' (performed n tr st) = performed (n + m) (tr ++ tr') st.
Proof.
  unfold performed; cbn. f_equal; [lia|]. by rewrite (assoc_L (++)).
Qed.

Ltac policy_case n :=
  split;
  [ exists n; split; [lia|reflexivity]
  | repeat split; intros; destruct_and?; simplify_eq; try done ].

(** The three-attempt loop shared by both uploads obeys the policy. *)
Lemma retry_loop_policy (env : Env) (f : effect) (st : State) :
  retry_policy env f st
    (for_range 3
       (λ attempt,
          try_except is_ClientError
            (s3_request env f;; mret (Some true))
            (λ _,
               (if (Z.of_nat attempt <? Z.of_nat 3 - 1)
                then time_sleep (2 ^ Z.of_nat attempt)
                else mret tt);;
               mret None))
       (mret false) st).
Proof.
  unfold retry_policy, for_range.
  rewrite !Nat.add_succ_r, !Nat.add_0_r.
  rewrite for_from_run, attempt_run.
  destruct (backend env (requests st)) as [|[]];
    [policy_case 1%nat| |policy_case 1%nat..].
  rewrite for_from_run, attempt_run.
  change (requests (performed 1 _ st)) with (requests st + 1)%nat.
  rewrite Nat.add_1_r.
  destruct (backend env (S (requests st))) as [|[]];
    rewrite ?performed_performed;
    [policy_case 2%nat| |policy_case 2%nat..].
  rewrite for_from_run, attempt_run.
  change (requests (performed _ _ st)) with (requests st + 2)%nat.
  rewrite !Nat.add_succ_r, !Nat.add_0_r.
  destruct (backend env (S (S (requests st)))) as [|[]];
    rewrite ?performed_performed; policy_case 3%nat.
Qed.

(** C2: both uploads follow the same policy on backend failures.  At most
    three requests are sent; the call returns true at the first request the
    backend accepts; after a refused attempt that is not the last it sleeps
    [2 ^ attempt] seconds (1, then 2), and it does not sleep after the third
    refusal; it returns false exactly when all three attempts are refused.
    For [upload_image] this is the case of a local file that exists. *)
Theorem upload_retry_policy (env : Env) (st : State) :
  (∀ jsonl_content s3_key : string,
     retry_policy env
       (PutObject (bucket_name env) s3_key jsonl_content
          "application/x-jsonlines")
       st (upload_jsonl env jsonl_content s3_key 3 st))
  ∧ (∀ local_path s3_key : string,
       fs_exists env local_path = true →
       retry_policy env
         (UploadFile (PStr local_path) (bucket_name env) s3_key "image/jpeg")
         st (upload_image env (PStr local_path) s3_key 3 st)).
Proof.
  split.
  - intros body key. apply retry_loop_policy.
  - intros p key Hp. unfold upload_image. unfold_M. rewrite Hp. cbn.
    apply retry_loop_policy.
Qed.

Lemma upload_retry_policy_two_refusals :
  upload_jsonl (sample_env 2) "{}" "logs/2026/01/15/events_090507.jsonl" 3
    sample_state
  = (Ret true,
     performed 3
       (let put := PutObject "drowsiness-detection-data"
                     "logs/2026/01/15/events_090507.jsonl" "{}"
                     "application/x-jsonlines" in
        [put; Sleep 1; put; Sleep 2; put])
       sample_state)
  ∧ upload_image (sample_env 2) (PStr "/tmp/img.jpg") "snapshots/img.jpg" 3
      sample_state
    = (Ret true,
       performed 3
         (let up := UploadFile (PStr "/tmp/img.jpg")
                      "drowsiness-detection-data" "snapshots/img.jpg"
                      "image/jpeg" in
          [up; Sleep 1; up; Sleep 2; up])
         sample_state).
Proof.
  destruct (upload_retry_policy (sample_env 2) sample_state) as [Hjsonl Himage].
  split.
  - destruct (Hjsonl "{}" "logs/2026/01/15/events_090507.jsonl")
      as (_ & _ & _ & H & _).
    apply H; reflexivity.
  - destruct (Himage "/tmp/img.jpg" "snapshots/img.jpg") as (_ & _ & _ & H & _);
      [reflexivity|].
    apply H; reflexivity.
Defined.

(** C7: for a local path that does not exist, [upload_image] returns false
    at once, whatever the number of retries: the state is untouched, so no
    request reached the backend and no sleep took place. *)
Theorem upload_image_missing_file (env : Env) (st : State)
    (local_path s3_key : string) (retries : nat) :
  fs_exists env local_path = false →
  upload_image env (PStr local_path) s3_key retries st = (Ret false, st).
Proof. intros Hp. unfold upload_image. unfold_M. by rewrite Hp. Qed.

Lemma upload_image_missing_file_sample :
  upload_image (sample_env 0) (PStr "/tmp/gone.jpg") "snapshots/gone.jpg" 3
    sample_state
  = (Ret false, sample_state).
Proof.
  apply (upload_image_missing_file (sample_env 0) sample_state
           "/tmp/gone.jpg" "snapshots/gone.jpg" 3).
  reflexivity.
Defined.

(** ** The event buffer, one caller *)

Lemma add_events_snoc (es : list Event) (e : Event) (b : EventBuffer) :
  add_events (es ++ [e]) b = snd (add_event e (add_events es b)).
Proof. unfold add_events. by rewrite foldl_app. Qed.

(** Appending leaves the timer alone and extends the pending list. *)
Lemma add_events_spec (es : list Event) (b : EventBuffer) :
  add_events es b
  = {| events := events b ++ es; flush_interval := flush_interval b;
       last_flush := last_flush b |}.
Proof.
  induction es as [|e es IH] using rev_ind.
  - destruct b; cbn. by rewrite app_nil_r.
  - rewrite add_events_snoc, IH. cbn. by rewrite (assoc_L (++)).
Qed.

(** C8: with a positive interval, [should_flush] answers false at the
    instant of construction and at the instant of a drain; after any
    appends (no drain) it answers true exactly when the time elapsed since
    [last_flush] is at least the interval; and it returns the buffer
    unchanged. *)
Theorem should_flush_spec (b : EventBuffer) (t : Z) :
  0 < flush_interval b →
  fst (should_flush t (EventBuffer_init (flush_interval b) t)) = false
  ∧ fst (should_flush t (snd (get_and_clear_events t b))) = false
  ∧ (∀ (es : list Event) (now : Z),
       fst (should_flush now (add_events es b)) = true
       ↔ now - last_flush b >= flush_interval b)
  ∧ (∀ now : Z, snd (should_flush now b) = b).
Proof.
  intros Hpos. repeat split.
  - cbn. apply Z.leb_gt. lia.
  - cbn. apply Z.leb_gt. lia.
  - rewrite add_events_spec. cbn. rewrite Z.leb_le. lia.
  - rewrite add_events_spec. cbn. rewrite Z.leb_le. lia.
Qed.

Lemma should_flush_spec_sample :
  0 < flush_interval (EventBuffer_init 60 1000)
  ∧ fst (should_flush 1000 (EventBuffer_init 60 1000)) = false
  ∧ (fst (should_flush 1060 (EventBuffer_init 60 1000)) = true
     ↔ 1060 - 1000 >= 60).
Proof.
  split; [reflexivity|].
  destruct (should_flush_spec (EventBuffer_init 60 1000) 1000) as
    (Hinit & _ & Hdue & _); [reflexivity|].
  split; [exact Hinit|]. exact (Hdue [] 1060).
Defined.
(** ** Processing one event *)

Lemma os_path_exists_pure (env : Env) (p : pyval) (st : State) :
  snd (os_path_exists env p st) = st.
Proof. by destruct p. Qed.

(** With a string for file name, [_get_s3_paths] returns whatever the
    timestamp is, and at most reads the clock. *)
Lemma get_s3_paths_returns (env : Env) (ts : pyval) (fn : string) (st : State) :
  ∃ date_path st',
    _get_s3_paths env ts (PStr fn) st = (Ret (paths_for date_path fn), st')
    ∧ (st' = st ∨ st' = count_read st).
Proof.
  destruct ts as [| | | |s| |];
    try (exists (wall_clock_date_path env st), (count_read st);
         split; [reflexivity|by right]).
  rewrite get_s3_paths_str.
  destruct (PyStr.split "_" s) as [|t0 [|t1 rest]]; [by eauto 6..|].
  destruct (PyStr.contains "Aug27_2025" s); by eauto 6.
Qed.

(** With anything else for file name, it raises, the service being left as
    it was. *)
Lemma get_s3_paths_raises (env : Env) (ts fn : pyval) (st : State) :
  (∀ s, fn ≠ PStr s) →
  ∃ e st',
    _get_s3_paths env ts fn st = (Raise e, st')
    ∧ event_buffer st' = event_buffer st.
Proof.
  intros Hfn. unfold _get_s3_paths, _get_s3_paths_try, slice.
  destruct fn; try (by destruct (Hfn s));
  (destruct ts as [| | | |s| |];
     [by eexists _, _..| |by eexists _, _|by eexists _, _]);
  (destruct (PyStr.split "_" s) as [|t0 [|t1 rest]];
     [by eexists _, _|by eexists _, _|]);
  unfold_M; cbn; destruct (PyStr.contains "Aug27_2025" s); cbn;
  by eexists _, _.
Qed.

(** [upload_image] leaves the buffer and the counters of the service alone. *)
Lemma upload_image_frame (env : Env) (p : pyval) (key : string) (st : State) :
  event_buffer (snd (upload_image env p key 3 st)) = event_buffer st
  ∧ stats (snd (upload_image env p key 3 st)) = stats st.
Proof.
  unfold upload_image. rewrite bind_run.
  pose proof (os_path_exists_pure env p st) as Hpure.
  destruct (os_path_exists env p st) as [[[]|e] st0]; cbn in Hpure; subst st0;
    [|done..].
  cbn [negb].
  destruct (retry_loop_policy env
              (UploadFile p (bucket_name env) key "image/jpeg") st)
    as [(n & _ & ->) _].
  done.
Qed.

Lemma image_outcome_annotated (env : Env) (st : State) (e : Event)
    (v : string) :
  image_outcome env st e v →
  annotated (<["s3_image_path" := PStr v]> e).
Proof.
  intros Hv. exists v. split; [by rewrite lookup_insert_eq|].
  destruct Hv as [_|p dp st1 st2 Himg _ _ _ _ _|]; [by left| |by right; left].
  right; right. exists p, dp. split; [|done].
  by rewrite lookup_insert_ne.
Qed.

Lemma usable_string (e : Event) (p : string) :
  dict_get e "image" = PStr p →
  truthy (PStr p) && ne_str (PStr p) "failed_to_save" = true →
  e !! "image" = Some (PStr p) ∧ p ≠ "" ∧ p ≠ "failed_to_save".
Proof.
  intros Hget [Ht Hne]%andb_prop. cbn in Ht, Hne.
  apply negb_true_iff, String.eqb_neq in Ht, Hne.
  split; [|done].
  unfold dict_get in Hget. destruct (e !! "image"); cbn in Hget; congruence.
Qed.

(** What [_process_event] does to the buffer: it always returns, and
    either gives the event up or appends it with its outcome recorded. *)
Lemma process_event_cases (env : Env) (st : State) (e : Event) :
  ∃ st',
    _process_event env e st = (Ret tt, st')
    ∧ (events (event_buffer st') = events (event_buffer st)
       ∧ event_abandoned env st e
       ∨ ∃ v : string,
           events (event_buffer st')
           = events (event_buffer st) ++ [<["s3_image_path" := PStr v]> e]
           ∧ image_outcome env st e v).
Proof.
  unfold _process_event, try_except. rewrite bind_run.
  destruct (truthy (dict_get e "image")
            && ne_str (dict_get e "image") "failed_to_save") eqn:Hguard.
  2:{ eexists. split; [reflexivity|]. right. eexists. split; [reflexivity|].
      constructor. apply andb_false_iff in Hguard as [Hf|Hs]; [by auto|].
      right; right; left. destruct (dict_get e "image"); try done.
      cbn in Hs. apply negb_false_iff, String.eqb_eq in Hs. by subst. }
  pose proof (os_path_exists_pure env (dict_get e "image") st) as Hpure.
  destruct (os_path_exists env (dict_get e "image") st) as [[[]|ex] st0]
    eqn:Hexists; cbn in Hpure; subst st0.
  - (* the path exists *)
    rewrite !bind_run.
    destruct (dict_get e "image") as [| | | |p| |] eqn:Himage.
    5:{ destruct (usable_string e p Himage Hguard) as (Hlook & Hne & Hns).
        destruct (get_s3_paths_returns env (dict_get e "timestamp") p st)
          as (dp & st1 & Hpaths & Hst1).
        rewrite Hpaths. cbn [paths_for]. rewrite bind_run.
        pose proof (upload_image_frame env (PStr p) (fst (paths_for dp p)) st1)
          as [Hbuf Hstats].
        assert (event_buffer st1 = event_buffer st) as Hb1
          by (by destruct Hst1 as [->| ->]).
        assert (fs_exists env p = true) as Hfs
          by (unfold os_path_exists in Hexists; by inversion Hexists).
        cbn [paths_for fst] in *.
        destruct (upload_image env (PStr p) _ 3 st1) as [[[]|eu] st2] eqn:Hup;
          cbn in Hbuf, Hstats.
        - eexists. split; [reflexivity|]. right. eexists. split.
          + cbn. by rewrite Hbuf, Hb1.
          + by eapply (outcome_uploaded env st e p dp).
        - eexists. split; [reflexivity|]. right. eexists. split.
          + cbn. by rewrite Hbuf, Hb1.
          + by eapply (outcome_upload_failed env st e p dp).
        - eexists. split; [reflexivity|]. left. split.
          + cbn. by rewrite Hbuf, Hb1.
          + by eapply (abandoned_by_upload env st e p dp). }
    all: match goal with
         | |- context [_get_s3_paths ?env ?ts ?fn ?st] =>
             destruct (get_s3_paths_raises env ts fn st)
               as (er & st1 & Hraise & Hst1); [done|]
         end;
         rewrite Hraise;
         eexists; (split; [reflexivity|]); left;
         (split; [cbn; by rewrite Hst1|]);
         eapply abandoned_by_paths; rewrite ?Himage; eauto.
  - (* the path does not exist *)
    eexists. split; [reflexivity|]. right. eexists. split; [reflexivity|].
    constructor. by auto.
  - (* [os.path.exists] raised *)
    eexists. split; [reflexivity|]. left. split; [done|].
    by eapply abandoned_by_exists.
Qed.

(** C9: [_process_event] always returns.  When it buffers the event, the
    event carries [s3_image_path], and the value is the snapshot key when
    the image exists and its upload returned true, "upload_failed" when the
    image exists and the upload returned false, "file_not_found" when the
    image field is absent, empty, the sentinel "failed_to_save" or the name
    of no file.  The only other course is that an exception makes it give
    the event up, and nothing is buffered.  Hence, if every buffered event
    is annotated before the call, every buffered event is after it. *)
Theorem process_event_annotates (env : Env) (st : State) (e : Event) :
  ∃ st',
    _process_event env e st = (Ret tt, st')
    ∧ (events (event_buffer st') = events (event_buffer st)
       ∧ event_abandoned env st e
       ∨ ∃ v : string,
           events (event_buffer st')
           = events (event_buffer st) ++ [<["s3_image_path" := PStr v]> e]
           ∧ image_outcome env st e v)
    ∧ (Forall annotated (events (event_buffer st)) →
       Forall annotated (events (event_buffer st'))).
Proof.
  destruct (process_event_cases env st e) as (st' & Hrun & Hbuf).
  exists st'. split; [done|]. split; [done|].
  intros Hall. destruct Hbuf as [[-> _]|(v & -> & Hv)]; [done|].
  apply Forall_app. split; [done|].
  apply Forall_singleton. by eapply image_outcome_annotated.
Qed.

Lemma process_event_annotates_sample :
  Forall annotated
    (events
       (event_buffer
          (snd (_process_event (sample_env 1) sample_event sample_state)))).
Proof.
  destruct (process_event_annotates (sample_env 1) sample_state sample_event)
    as (st' & Hrun & _ & Hinv).
  rewrite Hrun. apply Hinv. constructor.
Defined.

(** On the sample: the backend refuses once, the second attempt stores the
    image, and the event is buffered with the key of its snapshot. *)
Example process_event_sample :
  events (event_buffer
            (snd (_process_event (sample_env 1) sample_event sample_state)))
  = [<["s3_image_path" := PStr "snapshots/2025/08/27/img.jpg"]> sample_event].
Proof. vm_compute. reflexivity. Qed.

(** ** Flushing *)

Lemma join_lines (l : string) (ls : list string) :
  PyStr.join LF (l :: ls) +:+ LF
  = foldr (λ x rest, x +:+ LF +:+ rest) "" (l :: ls).
Proof.
  revert l. induction ls as [|l' ls IH]; intros l; [done|].
  change (PyStr.join LF (l :: l' :: ls))
    with (l +:+ LF +:+ PyStr.join LF (l' :: ls)).
  by rewrite !append_assoc, IH.
Qed.

Lemma archive_body_fmap (json_dumps : Event → string) (es : list Event) :
  foldr (λ x rest, x +:+ LF +:+ rest) "" (json_dumps <$> es)
  = archive_body json_dumps es.
Proof.
  unfold archive_body. induction es as [|e es IH]; [done|].
  rewrite fmap_cons. cbn [foldr]. by rewrite IH.
Qed.

(** The text the flush builds, ['\n'.join(lines) + '\n'], is the archive
    text when there is at least one event. *)
Lemma archive_body_join (json_dumps : Event → string) (e : Event)
    (es : list Event) :
  PyStr.join LF (json_dumps <$> e :: es) +:+ LF
  = archive_body json_dumps (e :: es).
Proof. by rewrite fmap_cons, join_lines, <- fmap_cons, archive_body_fmap. Qed.

(** Whatever the backend answers, [upload_jsonl] sends its one request up
    to three times and does nothing else. *)
Lemma upload_jsonl_attempts (env : Env) (jsonl_content s3_key : string)
    (st : State) :
  ∃ n : nat,
    (1 ≤ n ≤ 3)%nat
    ∧ snd (upload_jsonl env jsonl_content s3_key 3 st)
      = performed n
          (attempts
             (PutObject (bucket_name env) s3_key jsonl_content
                "application/x-jsonlines") n)
          st.
Proof.
  by destruct (retry_loop_policy env
                 (PutObject (bucket_name env) s3_key jsonl_content
                    "application/x-jsonlines") st) as [H _].
Qed.

Lemma drain_run (env : Env) (st : State) :
  (now ← time_time <$> read_clock env;
   on_buffer (get_and_clear_events now)) st
  = (Ret (events (event_buffer st)),
     set_event_buffer
       (snd (get_and_clear_events (time_time (clock env (reads st)))
               (event_buffer st)))
       (count_read st)).
Proof. reflexivity. Qed.

Lemma time_of_day_run (env : Env) (st : State) :
  (strftime_HMS <$> (datetime_now <$> read_clock env)) st
  = (Ret (strftime_HMS (datetime_now (clock env (reads st)))), count_read st).
Proof. reflexivity. Qed.

(** C4: a flush that finds events pending drains them and makes one call
    of [upload_jsonl]: the text is the serialisation of each event, in
    arrival order, each followed by a newline; the key is
    [logs/<prefix>/events_<HHMMSS>.jsonl], the prefix being what
    [_get_s3_paths] answers for the timestamp of the first event, and
    [HHMMSS] the time of day of the clock reading that follows.  Every
    request of the flush is thus a [PutObject] of that one object (one to
    three attempts, by the retry policy), and the buffer is left empty. *)
Theorem flush_uploads_one_archive (env : Env) (json_dumps : Event → string)
    (st : State) (first : Event) (rest : list Event) :
  events (event_buffer st) = first :: rest →
  let drained :=
    set_event_buffer
      (snd (get_and_clear_events (time_time (clock env (reads st)))
              (event_buffer st)))
      (count_read st) in
  ∃ (date_path : string) (st1 : State),
    _get_s3_paths env (dict_get first "timestamp") (PStr "") drained
    = (Ret (paths_for date_path ""), st1)
    ∧ let jsonl_content := archive_body json_dumps (first :: rest) in
      let logs_key :=
        "logs/" +:+ date_path +:+ "/events_"
          +:+ strftime_HMS (datetime_now (clock env (reads st1)))
          +:+ ".jsonl" in
      let put :=
        PutObject (bucket_name env) logs_key jsonl_content
          "application/x-jsonlines" in
      let upload :=
        upload_jsonl env jsonl_content logs_key 3 (count_read st1) in
      _flush_event_buffer env json_dumps st
      = (Ret tt,
         set_stats (count_batch (fst upload) (stats (snd upload)))
           (snd upload))
      ∧ (∃ n : nat,
           (1 ≤ n ≤ 3)%nat
           ∧ trace (snd upload) = trace st ++ attempts put n)
      ∧ events (event_buffer (snd upload)) = [].
Proof.
  intros Hpending drained.
  destruct (get_s3_paths_returns env (dict_get first "timestamp") "" drained)
    as (dp & st1 & Hpaths & Hst1).
  assert (trace st1 = trace st ∧ events (event_buffer st1) = [])
    as [Htrace Hempty] by (by destruct Hst1 as [->| ->]).
  exists dp, st1. split; [done|]. cbn zeta.
  set (logs_key := "logs/" +:+ dp +:+ _).
  destruct (upload_jsonl_attempts env
              (archive_body json_dumps (first :: rest)) logs_key
              (count_read st1))
    as (n & Hn & Hshape).
  split; [|split].
  - unfold _flush_event_buffer. rewrite bind_run, drain_run. fold drained.
    cbn beta iota. rewrite Hpending, bool_decide_eq_false_2 by done.
    unfold try_except. rewrite bind_run. cbn [index lookup list_lookup].
    unfold mret at 1, M_ret at 1. rewrite bind_run, Hpaths. cbn [paths_for].
    rewrite bind_run, time_of_day_run. cbn beta iota.
    rewrite bind_run, archive_body_join.
    by destruct (upload_jsonl env _ _ 3 (count_read st1)) as [[[]|e] st2].
  - exists n. split; [done|]. rewrite Hshape. cbn. by rewrite Htrace.
  - rewrite Hshape. by cbn.
Qed.

Lemma flush_uploads_one_archive_sample :
  ∃ (date_path : string) (st1 : State),
    let logs_key :=
      "logs/" +:+ date_path +:+ "/events_"
        +:+ strftime_HMS (datetime_now (clock (sample_env 1) (reads st1)))
        +:+ ".jsonl" in
    let upload :=
      upload_jsonl (sample_env 1)
        (archive_body (λ _, "{}") [sample_event; ∅]) logs_key 3
        (count_read st1) in
    _flush_event_buffer (sample_env 1) (λ _, "{}") sample_pending
    = (Ret tt,
       set_stats (count_batch (fst upload) (stats (snd upload))) (snd upload))
    ∧ events (event_buffer (snd upload)) = [].
Proof.
  destruct (flush_uploads_one_archive (sample_env 1) (λ _, "{}")
              sample_pending sample_event [∅] eq_refl)
    as (dp & st1 & _ & Hrun & _ & Hempty).
  exists dp, st1. split; [exact Hrun|exact Hempty].
Defined.

(** On the sample: two events, the first dated 2025-08-27, a backend that
    refuses once; one archive of two lines goes to the key of that date and
    of the time of day of the clock. *)
Example flush_sample_trace :
  trace (snd (_flush_event_buffer (sample_env 1) (λ _, "{}") sample_pending))
  = (let put := PutObject "drowsiness-detection-data"
                  "logs/2025/08/27/events_090507.jsonl"
                  ("{}" +:+ LF +:+ "{}" +:+ LF)
                  "application/x-jsonlines" in
     [put; Sleep 1; put]).
Proof. vm_compute. reflexivity. Qed.
(** ** The event buffer under its lock *)

Section Interleaving.
Import Threads.

Lemma others_disciplined_spec (d : nat) (c : config) :
  others_disciplined d c = true ↔ follows_discipline d c.
Proof.
  unfold others_disciplined, follows_discipline.
  rewrite forallb_forall. split.
  - intros Hall t th Hne Hlook.
    specialize (Hall (t, th)). cbn in Hall.
    rewrite bool_decide_eq_false_2 in Hall by done.
    apply Hall, list_elem_of_In, elem_of_lookup_imap. by exists t, th.
  - intros Hall [t th] Hin.
    apply list_elem_of_In, elem_of_lookup_imap in Hin
      as (i & y & [= -> ->] & Hlook).
    destruct (decide (i = d)) as [->|Hne].
    + by rewrite bool_decide_eq_true_2.
    + rewrite (Hall i y Hne Hlook). by rewrite orb_true_r.
Qed.

(** Any sequence of calls of [add_event], [should_flush] and [get_count]
    is disciplined code. *)
Lemma calls_disciplined (cs : list call) :
  disciplined false (flat_map body cs) = true.
Proof. induction cs as [|[]]; cbn; auto. Qed.

Lemma progress_later (b0 : EventBuffer) (a0 : list Event) (d : nat)
    (done more : list (nat * Z)) (c : config) :
  progress b0 a0 d done c → progress b0 a0 d (done ++ more) c.
Proof.
  destruct 1; eauto using progress, elem_of_app with nocore.
  - eapply before_release; eauto. apply elem_of_app; by left.
  - eapply returned; eauto. apply elem_of_app; by left.
Qed.

(** A step of a thread other than [d] keeps the others disciplined, when
    what is left of its code is disciplined for the new holder and the
    holder changed for no third thread. *)
Lemma discipline_other (d t : nat) (c : config) (th : thread)
    (k : list op) (l a : list Event) (b : EventBuffer) (h : option nat) :
  follows_discipline d c →
  threads c !! t = Some th →
  disciplined (bool_decide (h = Some t)) k = true →
  (∀ t', t' ≠ t → t' ≠ d → h = Some t' ↔ holder c = Some t') →
  follows_discipline d
    {| buffer := b; holder := h;
       threads := <[t := {| code := k; local_events := l |}]> (threads c);
       arrivals := a |}.
Proof.
  intros Hdisc Ht Hk Hholder t' th' Hne. cbn.
  destruct (decide (t' = t)) as [->|Hne'].
  - rewrite list_lookup_insert_eq by (by eapply lookup_lt_Some).
    by intros [= <-].
  - rewrite list_lookup_insert_ne by done. intros Hlook.
    rewrite <- (Hdisc t' th' Hne Hlook). f_equal.
    apply bool_decide_ext. by apply Hholder.
Qed.

(** So does a step of [d] itself. *)
Lemma discipline_self (d : nat) (c : config) (th : thread)
    (a : list Event) (b : EventBuffer) (h : option nat) :
  follows_discipline d c →
  (∀ t', t' ≠ d → h = Some t' ↔ holder c = Some t') →
  follows_discipline d
    {| buffer := b; holder := h; threads := <[d := th]> (threads c);
       arrivals := a |}.
Proof.
  intros Hdisc Hholder t' th' Hne. cbn.
  rewrite list_lookup_insert_ne by done. intros Hlook.
  rewrite <- (Hdisc t' th' Hne Hlook). f_equal.
  apply bool_decide_ext. by apply Hholder.
Qed.

(** A step of another thread that leaves buffer and arrivals alone and
    neither gives the lock to [d] nor takes it away keeps [d] where it
    stands. *)
Lemma progress_frame (b0 : EventBuffer) (a0 : list Event) (d t : nat)
    (done : list (nat * Z)) (c : config) (th : thread) (h : option nat) :
  t ≠ d →
  (h = Some d ↔ holder c = Some d) →
  progress b0 a0 d done c →
  progress b0 a0 d done
    {| buffer := buffer c; holder := h; threads := <[t := th]> (threads c);
       arrivals := arrivals c |}.
Proof.
  intros Hne Hh Hp.
  destruct Hp;
    [eapply before_acquire|eapply before_copy|eapply before_clear
    |eapply before_stamp|eapply before_release|eapply returned];
    cbn [threads buffer holder arrivals];
    rewrite ?list_lookup_insert_ne by done; eauto;
    first [by apply Hh|by rewrite Hh].
Qed.

(** An append by another thread, which then holds the lock, finds [d]
    outside its critical section and adds to the events that arrived. *)
Lemma progress_append (b0 : EventBuffer) (a0 : list Event) (d t : nat)
    (done : list (nat * Z)) (c : config) (th : thread) (e : Event) :
  t ≠ d →
  holder c = Some t →
  progress b0 a0 d done c →
  progress b0 a0 d done
    {| buffer := with_events (events (buffer c) ++ [e]) (buffer c);
       holder := holder c; threads := <[t := th]> (threads c);
       arrivals := arrivals c ++ [e] |}.
Proof.
  intros Hne Hh Hp.
  destruct Hp as [es l Hd Hnh Hb Ha| | | | |es1 es2 now Hd Hnh Hb Ha Hin];
    try congruence.
  - eapply (before_acquire _ _ _ _ _ (es ++ [e]));
      cbn [threads buffer holder arrivals];
      rewrite ?list_lookup_insert_ne by done; eauto.
    + by rewrite add_events_snoc, Hb.
    + by rewrite Ha, (assoc_L (++)).
  - eapply (returned _ _ _ _ _ es1 (es2 ++ [e]));
      cbn [threads buffer holder arrivals];
      rewrite ?list_lookup_insert_ne by done; eauto.
    + by rewrite add_events_snoc, Hb.
    + by rewrite Ha, !(assoc_L (++)).
Qed.

(** One step keeps the discipline of the others and moves [d] along. *)
Lemma step_progress (b0 : EventBuffer) (a0 : list Event) (d t : nat)
    (now : Z) (done : list (nat * Z)) (c c' : config) :
  follows_discipline d c →
  progress b0 a0 d done c →
  step t now c = Some c' →
  follows_discipline d c' ∧ progress b0 a0 d (done ++ [(t, now)]) c'.
Proof.
  intros Hdisc Hp Hstep. unfold step in Hstep.
  destruct (threads c !! t) as [th|] eqn:Ht; [|done].
  cbn in Hstep.
  apply (progress_later _ _ _ _ [(t, now)]) in Hp as Hp'.
  assert (t < length (threads c))%nat as Hlt by (by eapply lookup_lt_Some).
  destruct (decide (t = d)) as [->|Hne].
  - (* the draining thread moves *)
    assert ((d, now) ∈ done ++ [(d, now)]) as Hnow
      by (apply elem_of_app; right; by apply list_elem_of_singleton).
    destruct Hp as [es l Hd Hnh Hb Ha|es l Hd Hh Hb Ha|es Hd Hh Hb Ha
                   |es Hd Hh Hb Ha|es now' Hd Hh Hb Ha Hin
                   |es1 es2 now' Hd Hnh Hb Ha Hin];
      rewrite Hd in Ht; injection Ht as <-; cbn in Hstep.
    + destruct (holder c) as [h|] eqn:Hholder; [done|].
      injection Hstep as <-. split.
      * apply discipline_self; [done|]. intros t' Hne. rewrite Hholder.
        naive_solver.
      * eapply before_copy; cbn [threads buffer holder arrivals];
          rewrite ?list_lookup_insert_eq by done; eauto.
    + injection Hstep as <-. split.
      * by apply discipline_self.
      * eapply before_clear; cbn [threads buffer holder arrivals];
          rewrite ?list_lookup_insert_eq by done; eauto. by rewrite Hb.
    + injection Hstep as <-. split.
      * by apply discipline_self.
      * eapply before_stamp; cbn [threads buffer holder arrivals];
          rewrite ?list_lookup_insert_eq by done; eauto. by rewrite Hb.
    + injection Hstep as <-. split.
      * by apply discipline_self.
      * eapply (before_release _ _ _ _ _ es now);
          cbn [threads buffer holder arrivals];
          rewrite ?list_lookup_insert_eq by done; eauto. by rewrite Hb.
    + rewrite Hh in Hstep. injection Hstep as <-. split.
      * apply discipline_self; [done|]. intros t' Hne. rewrite Hh.
        naive_solver.
      * eapply (returned _ _ _ _ _ es [] now');
          cbn [threads buffer holder arrivals];
          rewrite ?list_lookup_insert_eq by done; eauto.
        -- by rewrite app_nil_r.
        -- apply elem_of_app; by left.
    + done.
  - (* another thread moves *)
    pose proof (Hdisc t th Hne Ht) as Hcode.
    destruct (code th) as [|o k] eqn:Hk; [done|].
    destruct o; cbn in Hcode; try done.
    + (* Acquire *)
      apply andb_prop in Hcode as [Hfree Hcode].
      destruct (holder c) as [h|] eqn:Hholder; [done|].
      injection Hstep as <-. split.
      * eapply discipline_other; eauto.
        -- by rewrite bool_decide_eq_true_2.
        -- intros t' ? ?. rewrite Hholder. naive_solver.
      * apply (progress_frame _ _ _ t _ c); [done| |done].
        rewrite Hholder. naive_solver.
    + (* Release *)
      apply andb_prop in Hcode as [Hheld%bool_decide_eq_true Hcode].
      rewrite Hheld in Hstep. injection Hstep as <-. split.
      * eapply discipline_other; eauto.
        intros t' ? ?. rewrite Hheld. naive_solver.
      * apply (progress_frame _ _ _ t _ c); [done| |done].
        rewrite Hheld. naive_solver.
    + (* Append *)
      apply andb_prop in Hcode as [Hheld Hcode].
      injection Hstep as <-. split.
      * eapply discipline_other; eauto; by rewrite Hheld.
      * apply bool_decide_eq_true in Hheld. by apply progress_append.
    + (* Len *)
      apply andb_prop in Hcode as [Hheld Hcode].
      injection Hstep as <-. split.
      * eapply discipline_other; eauto; by rewrite Hheld.
      * by apply (progress_frame _ _ _ t _ c).
    + (* Elapsed *)
      injection Hstep as <-. split.
      * eapply discipline_other; eauto.
      * by apply (progress_frame _ _ _ t _ c).
Qed.

Lemma run_progress (b0 : EventBuffer) (a0 : list Event) (d : nat)
    (sched done : list (nat * Z)) (c c' : config) :
  follows_discipline d c →
  progress b0 a0 d done c →
  run sched c = Some c' →
  follows_discipline d c' ∧ progress b0 a0 d (done ++ sched) c'.
Proof.
  revert done c. induction sched as [|[t now] sched IH]; intros done c Hdisc Hp.
  - intros [= <-]. by rewrite app_nil_r.
  - cbn. destruct (step t now c) as [c1|] eqn:Hstep; [|done]. cbn.
    intros Hrun.
    destruct (step_progress _ _ _ _ _ _ _ _ Hdisc Hp Hstep) as [Hdisc1 Hp1].
    rewrite (cons_middle _ done sched), (assoc_L (++)). by eapply IH.
Qed.

(** C3: events added with no drain in between come back from
    [get_and_clear_events] exactly, in arrival order; the buffer is then
    empty, [get_count] answers 0, and [last_flush] is the clock reading of
    the call.  Under the lock this happens atomically: however the steps
    of a drain by thread [d] interleave with threads that follow the
    locking discipline of the other methods, the outcome is that of the
    events [es1] being added, the whole drain taking place at one clock
    reading [now] of [d], and the events [es2] being added after it,
    where [es1 ++ es2] are the arrivals during the run. *)
Theorem get_and_clear_events_spec :
  (∀ (b : EventBuffer) (es : list Event) (now : Z),
     events b = [] →
     let r := get_and_clear_events now (add_events es b) in
     fst r = es
     ∧ events (snd r) = []
     ∧ fst (get_count (snd r)) = 0%nat
     ∧ last_flush (snd r) = now
     ∧ flush_interval (snd r) = flush_interval b)
  ∧ (∀ (d : nat) (c c' : config) (sched : list (nat * Z))
       (l : list Event),
       holder c = None →
       threads c !! d
         = Some {| code := get_and_clear_events_body; local_events := l |} →
       others_disciplined d c = true →
       run sched c = Some c' →
       code <$> threads c' !! d = Some [] →
       ∃ (es1 es2 : list Event) (now : Z),
         arrivals c' = arrivals c ++ es1 ++ es2
         ∧ (d, now) ∈ sched
         ∧ local_events <$> threads c' !! d
           = Some (fst (get_and_clear_events now
                          (add_events es1 (buffer c))))
         ∧ buffer c'
           = add_events es2
               (snd (get_and_clear_events now
                       (add_events es1 (buffer c))))).
Proof.
  split.
  - intros b es now Hempty. rewrite add_events_spec, Hempty. by cbn.
  - intros d c c' sched l Hfree Hd Hothers Hrun Hdone.
    apply others_disciplined_spec in Hothers.
    assert (progress (buffer c) (arrivals c) d [] c) as Hstart.
    { eapply (before_acquire _ _ _ _ _ []); eauto.
      - by rewrite Hfree.
      - by rewrite app_nil_r. }
    destruct (run_progress _ _ _ _ _ _ _ Hothers Hstart Hrun) as [_ Hend].
    destruct Hend as [? ? Hd'| ? ? Hd'| ? Hd'| ? Hd'| ? ? Hd'
                     |es1 es2 now Hd' _ Hb Ha Hin];
      rewrite Hd' in Hdone; try done.
    exists es1, es2, now. by rewrite Hd'.
Qed.

Lemma get_and_clear_events_spec_sample :
  fst (get_and_clear_events 1001
         (add_events [sample_event; ∅] (EventBuffer_init 60 1000)))
  = [sample_event; ∅]
  ∧ ∃ c' : config,
      run sample_schedule (sample_config sample_event ∅) = Some c'
      ∧ ∃ (es1 es2 : list Event) (now : Z),
          arrivals c' = es1 ++ es2
          ∧ (1%nat, now) ∈ sample_schedule
          ∧ local_events <$> threads c' !! 1%nat
            = Some (fst (get_and_clear_events now
                           (add_events es1 (EventBuffer_init 60 1000))))
          ∧ buffer c'
            = add_events es2
                (snd (get_and_clear_events now
                        (add_events es1 (EventBuffer_init 60 1000)))).
Proof.
  destruct get_and_clear_events_spec as [Hone Hlock]. split.
  - apply (Hone (EventBuffer_init 60 1000) [sample_event; ∅] 1001).
    reflexivity.
  - eexists. split; [vm_compute; reflexivity|].
    apply (Hlock 1%nat (sample_config sample_event ∅) _ sample_schedule []);
      vm_compute; reflexivity.
Defined.

(** On the sample schedule the drain returns the event that arrived
    before it took the lock and leaves the one that arrived after. *)
Example sample_schedule_outcome :
  (c' ← run sample_schedule (sample_config sample_event ∅);
   th ← threads c' !! 1%nat;
   Some (local_events th, events (buffer c'), last_flush (buffer c')))
  = Some ([sample_event], [∅], 1007).
Proof. vm_compute. reflexivity. Qed.
End Interleaving.

(** * Further properties *)

(** ** The retry loops, for any number of retries *)

Lemma performed_nothing (st : State) : performed 0 [] st = st.
Proof.
  destruct st. unfold performed; cbn. by rewrite Nat.add_0_r, app_nil_r.
Qed.

Lemma attempt_body_run (env : Env) (f : effect) (retries attempt : nat)
    (st : State) :
  attempt_body env f retries attempt st
  = match backend env (requests st) with
    | Success => (Ret (Some true), performed 1 [f] st)
    | Fails ClientError =>
        (Ret None, performed 1 (refusals f retries attempt 1) st)
    | Fails e => (Raise e, performed 1 [f] st)
    end.
Proof.
  unfold attempt_body, refusals. rewrite attempt_run. cbn [seq flat_map].
  by rewrite app_nil_r.
Qed.

Lemma refusals_succ (f : effect) (retries i k : nat) :
  refusals f retries i (S k)
  = refusals f retries i 1 ++ refusals f retries (S i) k.
Proof. unfold refusals. cbn [seq flat_map]. by rewrite app_nil_r. Qed.

(** After [k] refusals the loop goes on with attempt [i + k]. *)
Lemma refused_prefix (env : Env) (f : effect) (retries : nat) (orelse : M bool)
    (k : nat) :
  ∀ (i count : nat) (st : State),
    (k ≤ count)%nat →
    (∀ j, (j < k)%nat →
          backend env (requests st + j)%nat = Fails ClientError) →
    for_from i count (attempt_body env f retries) orelse st
    = for_from (i + k) (count - k) (attempt_body env f retries) orelse
        (performed k (refusals f retries i k) st).
Proof.
  induction k as [|k IH]; intros i count st Hk Hrefused.
  - by rewrite Nat.add_0_r, Nat.sub_0_r, performed_nothing.
  - destruct count as [|count]; [lia|].
    rewrite for_from_run, attempt_body_run.
    pose proof (Hrefused 0%nat ltac:(lia)) as H0.
    rewrite Nat.add_0_r in H0. rewrite H0.
    rewrite (IH (S i) count) by
      (first [lia | intros j Hj; cbn [requests performed];
                    rewrite <- Nat.add_assoc; apply Hrefused; lia]).
    rewrite performed_performed, <- refusals_succ.
    by rewrite Nat.add_succ_r.
Qed.

Lemma refusals_app (f : effect) (retries i k m : nat) :
  refusals f retries i (k + m)
  = refusals f retries i k ++ refusals f retries (i + k) m.
Proof. unfold refusals. by rewrite seq_app, flat_map_app. Qed.

(** Every refusal but that of the last attempt is followed by its sleep. *)
Lemma refusals_sleep (f : effect) (retries : nat) (k : nat) :
  ∀ i : nat,
    (i + k < retries)%nat →
    refusals f retries i k
    = flat_map (λ j, [f; Sleep (2 ^ Z.of_nat j)]) (seq i k).
Proof.
  induction k as [|k IH]; intros i Hik; [done|].
  rewrite refusals_succ, IH by lia. unfold refusals. cbn [seq flat_map].
  rewrite app_nil_r.
  replace (Z.of_nat i <? Z.of_nat retries - 1) with true
    by (symmetry; apply Z.ltb_lt; lia).
  done.
Qed.

Lemma attempts_snoc (f : effect) (k : nat) :
  attempts f (S k)
  = flat_map (λ j, [f; Sleep (2 ^ Z.of_nat j)]) (seq 0 k) ++ [f].
Proof.
  unfold attempts. generalize 0%nat.
  induction k as [|k IH]; intros i; [done|].
  cbn [seq flat_map app]. by rewrite <- IH.
Qed.

Lemma refusals_then_request (f : effect) (retries k : nat) :
  (k < retries)%nat →
  refusals f retries 0 k ++ [f] = attempts f (S k).
Proof. intros Hk. by rewrite refusals_sleep, attempts_snoc by lia. Qed.

Lemma refusals_all (f : effect) (retries : nat) :
  refusals f retries 0 retries = attempts f retries.
Proof.
  destruct retries as [|n]; [done|].
  replace (S n) with (n + 1)%nat at 2 by lia.
  rewrite refusals_app, <- (refusals_then_request f (S n) n) by lia.
  f_equal. unfold refusals. cbn [seq flat_map Nat.add].
  replace (Z.of_nat n <? Z.of_nat (S n) - 1) with false
    by (symmetry; apply Z.ltb_ge; lia).
  done.
Qed.

(** The three ways the loop ends. *)
Lemma loop_gives_up (env : Env) (f : effect) (retries : nat) (st : State) :
  (∀ j, (j < retries)%nat →
        backend env (requests st + j)%nat = Fails ClientError) →
  for_range retries (attempt_body env f retries) (mret false) st
  = (Ret false, performed retries (attempts f retries) st).
Proof.
  intros Hrefused. unfold for_range.
  rewrite (refused_prefix env f retries _ retries) by (lia || done).
  by rewrite Nat.sub_diag, refusals_all.
Qed.

Lemma loop_ends_at (env : Env) (f : effect) (retries k : nat) (st : State) :
  (k < retries)%nat →
  (∀ j, (j < k)%nat →
        backend env (requests st + j)%nat = Fails ClientError) →
  backend env (requests st + k)%nat ≠ Fails ClientError →
  for_range retries (attempt_body env f retries) (mret false) st
  = (match backend env (requests st + k)%nat with
     | Success => Ret true
     | Fails e => Raise e
     end, performed (S k) (attempts f (S k)) st).
Proof.
  intros Hk Hrefused Hend. unfold for_range.
  rewrite (refused_prefix env f retries _ k) by (lia || done).
  destruct (retries - k)%nat as [|count] eqn:Hcount; [lia|].
  rewrite for_from_run, attempt_body_run. cbn [requests performed].
  destruct (backend env (requests st + k)) as [|[]]; try done;
    by rewrite performed_performed, refusals_then_request, Nat.add_1_r.
Qed.

Lemma upload_jsonl_loop (env : Env) (jsonl_content s3_key : string)
    (retries : nat) (st : State) :
  upload_jsonl env jsonl_content s3_key retries st
  = for_range retries
      (attempt_body env
         (PutObject (bucket_name env) s3_key jsonl_content
            "application/x-jsonlines") retries)
      (mret false) st.
Proof. reflexivity. Qed.

Lemma upload_image_loop (env : Env) (local_path s3_key : string)
    (retries : nat) (st : State) :
  fs_exists env local_path = true →
  upload_image env (PStr local_path) s3_key retries st
  = for_range retries
      (attempt_body env
         (UploadFile (PStr local_path) (bucket_name env) s3_key "image/jpeg")
         retries)
      (mret false) st.
Proof.
  intros Hp. unfold upload_image. rewrite bind_run.
  unfold os_path_exists, mret, M_ret. by rewrite Hp.
Qed.

(** X1: whatever the number of retries, when the backend refuses every
    attempt with a [ClientError], both uploads return false after exactly
    [retries] requests, with a sleep of 1, 2, 4, ... seconds between two
    consecutive requests and none after the last.  With [retries = 0] no
    request is sent at all. *)
Theorem upload_gives_up (env : Env) (st : State) (retries : nat) :
  (∀ j, (j < retries)%nat →
        backend env (requests st + j)%nat = Fails ClientError) →
  (∀ jsonl_content s3_key : string,
     upload_jsonl env jsonl_content s3_key retries st
     = (Ret false,
        performed retries
          (attempts
             (PutObject (bucket_name env) s3_key jsonl_content
                "application/x-jsonlines") retries) st))
  ∧ (∀ local_path s3_key : string,
       fs_exists env local_path = true →
       upload_image env (PStr local_path) s3_key retries st
       = (Ret false,
          performed retries
            (attempts
               (UploadFile (PStr local_path) (bucket_name env) s3_key
                  "image/jpeg") retries) st)).
Proof.
  intros Hrefused. split.
  - intros body key. rewrite upload_jsonl_loop. by apply loop_gives_up.
  - intros p key Hp. rewrite upload_image_loop by done. by apply loop_gives_up.
Qed.

Lemma upload_gives_up_five :
  upload_jsonl (sample_env 5) "{}" "logs/k" 5 sample_state
  = (Ret false,
     performed 5
       (let put := PutObject "drowsiness-detection-data" "logs/k" "{}"
                     "application/x-jsonlines" in
        [put; Sleep 1; put; Sleep 2; put; Sleep 4; put; Sleep 8; put])
       sample_state)
  ∧ upload_image (sample_env 0) (PStr "/tmp/img.jpg") "k" 0 sample_state
    = (Ret false, performed 0 [] sample_state).
Proof.
  split.
  - apply (upload_gives_up (sample_env 5) sample_state 5).
    intros j Hj. do 5 (destruct j as [|j]; [reflexivity|]). lia.
  - apply (upload_gives_up (sample_env 0) sample_state 0); [lia|reflexivity].
Defined.

(** X2: an upload stops at the first answer that is not a [ClientError]:
    after [k < retries] refusals, an acceptance makes it return true and any
    other exception escapes from it at once, in both cases after exactly
    [k + 1] requests and with no sleep after the last. *)
Theorem upload_stops_at_first_answer (env : Env) (st : State)
    (retries k : nat) :
  (k < retries)%nat →
  (∀ j, (j < k)%nat →
        backend env (requests st + j)%nat = Fails ClientError) →
  backend env (requests st + k)%nat ≠ Fails ClientError →
  let ending :=
    match backend env (requests st + k)%nat with
    | Success => Ret true
    | Fails e => Raise e
    end in
  (∀ jsonl_content s3_key : string,
     upload_jsonl env jsonl_content s3_key retries st
     = (ending,
        performed (S k)
          (attempts
             (PutObject (bucket_name env) s3_key jsonl_content
                "application/x-jsonlines") (S k)) st))
  ∧ (∀ local_path s3_key : string,
       fs_exists env local_path = true →
       upload_image env (PStr local_path) s3_key retries st
       = (ending,
          performed (S k)
            (attempts
               (UploadFile (PStr local_path) (bucket_name env) s3_key
                  "image/jpeg") (S k)) st)).
Proof.
  intros Hk Hrefused Hend ending. split.
  - intros body key. rewrite upload_jsonl_loop. by apply loop_ends_at.
  - intros p key Hp. rewrite upload_image_loop by done. by apply loop_ends_at.
Qed.

Lemma upload_stops_at_other_error :
  upload_image (sample_env_then 1 (Fails OtherError)) (PStr "/tmp/img.jpg")
    "k" 3 sample_state
  = (Raise OtherError,
     performed 2
       (let up := UploadFile (PStr "/tmp/img.jpg")
                    "drowsiness-detection-data" "k" "image/jpeg" in
        [up; Sleep 1; up])
       sample_state).
Proof.
  refine (proj2 (upload_stops_at_first_answer
                   (sample_env_then 1 (Fails OtherError)) sample_state 3 1
                   _ _ _) "/tmp/img.jpg" "k" _).
  - lia.
  - intros [|j] Hj; [reflexivity|lia].
  - discriminate.
  - reflexivity.
Defined.

Lemma slept_app (tr tr' : list effect) :
  slept (tr ++ tr') = slept tr + slept tr'.
Proof.
  induction tr as [|[] tr IH]; cbn; unfold slept in *; cbn; lia.
Qed.

Lemma slept_attempts (f : effect) (n : nat) :
  is_request f = true →
  slept (attempts f (S n)) = 2 ^ Z.of_nat n - 1.
Proof.
  intros Hf. rewrite attempts_snoc, slept_app.
  assert (slept [f] = 0) as -> by (by destruct f).
  assert (∀ i, slept (flat_map (λ j, [f; Sleep (2 ^ Z.of_nat j)]) (seq i n))
               = 2 ^ Z.of_nat (i + n) - 2 ^ Z.of_nat i) as Hsum.
  { induction n as [|n IH]; intros i.
    - rewrite Nat.add_0_r. cbn. lia.
    - cbn [seq flat_map]. rewrite slept_app, IH.
      assert (slept [f; Sleep (2 ^ Z.of_nat i)] = 2 ^ Z.of_nat i) as ->
        by (destruct f; try done; cbn; lia).
      replace (Z.of_nat (S i)) with (Z.of_nat i + 1) by lia.
      replace (S i + n)%nat with (i + S n)%nat by lia.
      rewrite Z.pow_add_r by lia. lia. }
  rewrite Hsum. cbn. lia.
Qed.

(** X3: the time an upload can block the caller.  When every attempt is
    refused, the sleeps add up to [2 ^ (retries - 1) - 1] seconds: 3 seconds
    for the 3 attempts the service asks for. *)
Theorem upload_blocking_time (env : Env) (st : State) (retries : nat) :
  (0 < retries)%nat →
  (∀ j, (j < retries)%nat →
        backend env (requests st + j)%nat = Fails ClientError) →
  (∀ jsonl_content s3_key : string,
     slept (trace (snd (upload_jsonl env jsonl_content s3_key retries st)))
     = slept (trace st) + (2 ^ (Z.of_nat retries - 1) - 1))
  ∧ (∀ local_path s3_key : string,
       fs_exists env local_path = true →
       slept (trace (snd (upload_image env (PStr local_path) s3_key
                            retries st)))
       = slept (trace st) + (2 ^ (Z.of_nat retries - 1) - 1)).
Proof.
  intros Hpos Hrefused.
  destruct retries as [|n]; [lia|].
  replace (Z.of_nat (S n) - 1) with (Z.of_nat n) by lia.
  split.
  - intros body key. rewrite upload_jsonl_loop, loop_gives_up by done.
    cbn [snd trace performed]. by rewrite slept_app, slept_attempts.
  - intros p key Hp. rewrite upload_image_loop, loop_gives_up by done.
    cbn [snd trace performed]. by rewrite slept_app, slept_attempts.
Qed.

Lemma upload_blocking_time_default :
  slept (trace (snd (upload_jsonl (sample_env 3) "{}" "logs/k" 3
                       sample_state)))
  = 0 + (2 ^ (3 - 1) - 1).
Proof.
  refine (proj1 (upload_blocking_time (sample_env 3) sample_state 3 _ _)
            "{}" "logs/k").
  - lia.
  - intros j Hj. do 3 (destruct j as [|j]; [reflexivity|]). lia.
Defined.

(** ** The event buffer over a sequence of calls *)

(** X4: over any sequence of calls of the four methods, no event is lost,
    duplicated or reordered: the batches returned by the drains, followed by
    what is still pending, are the events pending at the start followed by
    the events added, in the order of the calls.  The interval never
    changes, and only a drain moves [last_flush]. *)
Theorem buffer_conserves_events (cs : list buffer_call) (b : EventBuffer) :
  concat (fst (run_calls cs b)) ++ events (snd (run_calls cs b))
  = events b ++ added cs
  ∧ flush_interval (snd (run_calls cs b)) = flush_interval b
  ∧ last_flush (snd (run_calls cs b)) = last_drain cs (last_flush b).
Proof.
  revert b. induction cs as [|[e|now| |now] cs IH]; intros b.
  - cbn. by rewrite app_nil_r.
  - cbn [run_calls added last_drain].
    destruct (IH (snd (add_event e b))) as (Hev & Hint & Hlast).
    rewrite Hev, Hint, Hlast. cbn. by rewrite <- (assoc_L (++)).
  - cbn [run_calls added last_drain].
    destruct (IH (snd (get_and_clear_events now b))) as (Hev & Hint & Hlast).
    cbn [get_and_clear_events snd] in *.
    destruct (run_calls cs _) as [batches b2]. cbn in *.
    by rewrite <- (assoc_L (++)), Hev.
  - apply (IH b).
  - apply (IH b).
Qed.

(** X5: with an interval that is not positive, [should_flush] answers true
    at every reading that is not before [last_flush], thus also at the very
    instant of a drain or of the construction. *)
Theorem should_flush_without_interval (b : EventBuffer) (now : Z) :
  flush_interval b ≤ 0 →
  (last_flush b ≤ now → fst (should_flush now b) = true)
  ∧ fst (should_flush now (snd (get_and_clear_events now b))) = true
  ∧ fst (should_flush now (EventBuffer_init (flush_interval b) now)) = true.
Proof.
  intros Hint. repeat split; cbn; intros; apply Z.leb_le; lia.
Qed.

Lemma should_flush_without_interval_zero :
  fst (should_flush 1000 (snd (get_and_clear_events 1000
                                 (EventBuffer_init 0 990)))) = true.
Proof.
  refine (proj1 (proj2 (should_flush_without_interval
                          (EventBuffer_init 0 990) 1000 _))).
  cbn. lia.
Defined.

(** ** Path partitioning, beyond the expected inputs *)

Lemma split_nonempty (sep : ascii) (s : string) : PyStr.split sep s ≠ [].
Proof.
  destruct s as [|c s]; [done|]. cbn.
  destruct (Ascii.eqb c sep); [done|]. by destruct (PyStr.split sep s).
Qed.

(** A string in which the separator occurs splits into two tokens at
    least. *)
Lemma split_two_tokens (sep : ascii) (s : string) :
  has_char sep s = true →
  ∃ t0 t1 rest, PyStr.split sep s = t0 :: t1 :: rest.
Proof.
  induction s as [|c s IH]; [done|]. cbn.
  destruct (Ascii.eqb c sep) eqn:Hc; cbn.
  - intros _. pose proof (split_nonempty sep s).
    destruct (PyStr.split sep s) as [|t1 rest]; [done|]. by eauto.
  - intros (t0 & t1 & rest & ->)%IH. by eauto.
Qed.

Lemma prefix_has_char (c : ascii) (pat : string) :
  ∀ s : string,
    String.prefix pat s = true → has_char c pat = true →
    has_char c s = true.
Proof.
  induction pat as [|x pat IH]; intros s Hpre Hc; [done|].
  destruct s as [|y s]; [done|]. cbn in Hpre.
  destruct (ascii_dec x y) as [<-|]; [|done]. cbn in *.
  destruct (Ascii.eqb x c); [done|]. cbn in *. by apply IH.
Qed.

Lemma contains_has_char (c : ascii) (pat s : string) :
  PyStr.contains pat s = true → has_char c pat = true →
  has_char c s = true.
Proof.
  intros Hin Hc. induction s as [|y s IH].
  - cbn in Hin. rewrite orb_false_r in Hin. by eapply prefix_has_char.
  - cbn [PyStr.contains] in Hin. apply orb_prop in Hin as [Hpre|Hin].
    + by eapply prefix_has_char.
    + cbn. rewrite (IH Hin). by rewrite orb_true_r.
Qed.

(** X6: whenever the timestamp contains the literal "Aug27_2025", at any
    place, [_get_s3_paths] reads no clock and never falls back: the
    timestamp has two tokens at least, the prefix is made of the second
    token, of the month the table gives for the first three characters of
    the first token ("01" when they are no month abbreviation) and of the
    rest of the first token, whatever these are. *)
Theorem get_s3_paths_literal_anywhere (env : Env) (ts fn : string)
    (st : State) :
  PyStr.contains "Aug27_2025" ts = true →
  ∃ (t0 t1 : string) (rest : list string),
    PyStr.split "_" ts = t0 :: t1 :: rest
    ∧ _get_s3_paths env (PStr ts) (PStr fn) st
      = (Ret (paths_for
                (t1 +:+ "/" +:+ default "01" (month_map !! PyStr.take 3 t0)
                    +:+ "/" +:+ PyStr.drop 3 t0) fn), st).
Proof.
  intros Hlit.
  destruct (split_two_tokens "_" ts) as (t0 & t1 & rest & Hsplit).
  { by eapply contains_has_char. }
  exists t0, t1, rest. split; [done|].
  by rewrite get_s3_paths_str, Hsplit, Hlit.
Qed.

Lemma get_s3_paths_literal_inside :
  ∃ (t0 t1 : string) (rest : list string),
    PyStr.split "_" "cam2_Aug27_2025_06h47m10s" = t0 :: t1 :: rest
    ∧ _get_s3_paths (sample_env 0) (PStr "cam2_Aug27_2025_06h47m10s")
        (PStr "img.jpg") sample_state
      = (Ret (paths_for
                (t1 +:+ "/" +:+ default "01" (month_map !! PyStr.take 3 t0)
                    +:+ "/" +:+ PyStr.drop 3 t0) "img.jpg"), sample_state).
Proof.
  apply (get_s3_paths_literal_anywhere (sample_env 0)
           "cam2_Aug27_2025_06h47m10s" "img.jpg" sample_state).
  reflexivity.
Defined.

(** What the sample above comes to: the second token stands for the year,
    no month is recognised, the day is what follows three characters. *)
Example literal_inside_sample_value :
  _get_s3_paths (sample_env 0) (PStr "cam2_Aug27_2025_06h47m10s")
    (PStr "img.jpg") sample_state
  = (Ret ("snapshots/Aug27/01/2/img.jpg", "Aug27/01/2"), sample_state).
Proof. reflexivity. Qed.

(** X7: a timestamp that is not a string (a number, [null], a list...) is
    ignored like a string without the literal: the [AttributeError] of
    [split] is caught and the wall clock, read once, gives the prefix. *)
Theorem get_s3_paths_timestamp_not_str (env : Env) (ts : pyval) (fn : string)
    (st : State) :
  is_str ts = false →
  _get_s3_paths env ts (PStr fn) st
  = (Ret (paths_for (wall_clock_date_path env st) fn), count_read st).
Proof. by destruct ts. Qed.

Lemma get_s3_paths_timestamp_number :
  _get_s3_paths (sample_env 0) (PInt 1756277230) (PStr "img.jpg") sample_state
  = (Ret ("snapshots/2026/01/15/img.jpg", "2026/01/15"),
     count_read sample_state).
Proof.
  apply (get_s3_paths_timestamp_not_str (sample_env 0) (PInt 1756277230)
           "img.jpg" sample_state).
  reflexivity.
Defined.

Lemma basename_TypeError_frame (env : Env) (ts fn : pyval)
    (st : State) :
  is_str fn = false →
  ∃ st' : State,
    _get_s3_paths env ts fn st = (Raise TypeError, st')
    ∧ event_buffer st' = event_buffer st
    ∧ stats st' = stats st
    ∧ trace st' = trace st
    ∧ requests st' = requests st.
Proof.
  intros Hfn. unfold _get_s3_paths, _get_s3_paths_try, slice.
  destruct fn; try done;
  (destruct ts as [| | | |s| |];
     [by eexists..| |by eexists|by eexists]);
  (destruct (PyStr.split "_" s) as [|t0 [|t1 rest]];
     [by eexists|by eexists|]);
  unfold_M; cbn; destruct (PyStr.contains "Aug27_2025" s); cbn;
  by eexists.
Qed.

(** X8: the [except] clause does not make [_get_s3_paths] safe for a file
    name that is not a string: [os.path.basename] raises a [TypeError] in
    the handler as it did in the body, and the exception escapes, whatever
    the timestamp.  Buffer, statistics and trace are left as they were. *)
Theorem get_s3_paths_filename_not_str (env : Env) (ts fn : pyval)
    (st : State) :
  is_str fn = false →
  ∃ st' : State,
    _get_s3_paths env ts fn st = (Raise TypeError, st')
    ∧ event_buffer st' = event_buffer st
    ∧ stats st' = stats st
    ∧ trace st' = trace st
    ∧ requests st' = requests st.
Proof. apply basename_TypeError_frame. Qed.

Lemma get_s3_paths_filename_number :
  ∃ st' : State,
    _get_s3_paths (sample_env 0) (PStr "Aug27_2025_06h47m10s_276") (PInt 7)
      sample_state
    = (Raise TypeError, st')
    ∧ event_buffer st' = event_buffer sample_state
    ∧ stats st' = stats sample_state
    ∧ trace st' = trace sample_state
    ∧ requests st' = requests sample_state.
Proof.
  apply (get_s3_paths_filename_not_str (sample_env 0)
           (PStr "Aug27_2025_06h47m10s_276") (PInt 7) sample_state).
  reflexivity.
Defined.

(** ** Processing events: statistics and requests *)

(** [_process_event], branch by branch. *)
Lemma process_event_run (env : Env) (e : Event) (st : State) :
  _process_event env e st
  = let image := dict_get e "image" in
    if negb (truthy image && ne_str image "failed_to_save")
    then (Ret tt, buffered "file_not_found" e st)
    else
      match os_path_exists env image st with
      | (Ret false, _) => (Ret tt, buffered "file_not_found" e st)
      | (Raise _, _) => (Ret tt, st)
      | (Ret true, _) =>
          match _get_s3_paths env (dict_get e "timestamp") image st with
          | (Raise _, st1) => (Ret tt, st1)
          | (Ret (snapshot_key, _), st1) =>
              match upload_image env image snapshot_key 3 st1 with
              | (Ret true, st2) =>
                  (Ret tt,
                   buffered snapshot_key e
                     (set_stats (incr_images_uploaded (stats st2)) st2))
              | (Ret false, st2) =>
                  (Ret tt,
                   buffered "upload_failed" e
                     (set_stats (incr_images_failed (stats st2)) st2))
              | (Raise _, st2) => (Ret tt, st2)
              end
          end
      end.
Proof.
  unfold _process_event, try_except. rewrite bind_run. cbn zeta.
  destruct (truthy (dict_get e "image")
            && ne_str (dict_get e "image") "failed_to_save"); [|done].
  cbn [negb].
  pose proof (os_path_exists_pure env (dict_get e "image") st) as Hpure.
  destruct (os_path_exists env (dict_get e "image") st) as [[[]|ex] st0];
    cbn in Hpure; subst st0; [|done..].
  rewrite !bind_run.
  destruct (_get_s3_paths env _ _ st) as [[[key dp]|ex] st1]; [|done].
  rewrite bind_run.
  by destruct (upload_image env _ key 3 st1) as [[[]|ex] st2].
Qed.

(** [_get_s3_paths] touches nothing but the count of clock readings. *)
Lemma get_s3_paths_frame (env : Env) (ts fn : pyval) (st : State) :
  let st' := snd (_get_s3_paths env ts fn st) in
  event_buffer st' = event_buffer st ∧ stats st' = stats st
  ∧ trace st' = trace st ∧ requests st' = requests st.
Proof.
  destruct (is_str fn) eqn:Hfn.
  - destruct fn as [| | | |p| |]; try done.
    destruct (get_s3_paths_returns env ts p st) as (dp & st1 & -> & [->| ->]);
      done.
  - destruct (basename_TypeError_frame env ts fn st Hfn)
      as (st1 & -> & ?). done.
Qed.

Lemma prefix_snapshots (rest : string) :
  String.prefix "snapshots/" ("snapshots/" +:+ rest) = true.
Proof. by destruct rest. Qed.

(** All that one call of [_process_event] does to the state, [n] being the
    number of requests sent and [key] the key they were sent for. *)
Lemma process_event_effect (env : Env) (e : Event) (st : State) :
  ∃ (n : nat) (key : string),
    let st' := snd (_process_event env e st) in
    let up :=
      UploadFile (dict_get e "image") (bucket_name env) key "image/jpeg" in
    let buffer_with v :=
      snd (add_event (<["s3_image_path" := PStr v]> e) (event_buffer st)) in
    (n ≤ 3)%nat
    ∧ trace st' = trace st ++ attempts up n
    ∧ requests st' = (requests st + n)%nat
    ∧ (event_buffer st' = event_buffer st ∧ stats st' = stats st
       ∨ n = 0%nat
         ∧ event_buffer st' = buffer_with "file_not_found"
         ∧ stats st' = incr_events_received (stats st)
       ∨ (1 ≤ n)%nat
         ∧ String.prefix "snapshots/" key = true
         ∧ event_buffer st' = buffer_with key
         ∧ stats st'
           = incr_events_received (incr_images_uploaded (stats st))
       ∨ n = 3%nat
         ∧ event_buffer st' = buffer_with "upload_failed"
         ∧ stats st'
           = incr_events_received (incr_images_failed (stats st))).
Proof.
  rewrite process_event_run. cbn zeta.
  destruct (truthy (dict_get e "image")
            && ne_str (dict_get e "image") "failed_to_save") eqn:Hguard;
    cbn [negb].
  2:{ exists 0%nat, "". cbn. rewrite Nat.add_0_r, app_nil_r.
      do 3 (split; [done || lia|]). right; left. by repeat split. }
  pose proof (os_path_exists_pure env (dict_get e "image") st) as Hpure.
  destruct (os_path_exists env (dict_get e "image") st) as [[[]|ex] st0]
    eqn:Hexists; cbn in Hpure; subst st0.
  2:{ exists 0%nat, "". cbn. rewrite Nat.add_0_r, app_nil_r.
      do 3 (split; [done || lia|]). right; left. by repeat split. }
  2:{ exists 0%nat, "". cbn. rewrite Nat.add_0_r, app_nil_r.
      do 3 (split; [done || lia|]). left. by repeat split. }
  destruct (is_str (dict_get e "image")) eqn:Hstr.
  2:{ destruct (basename_TypeError_frame env
                  (dict_get e "timestamp") (dict_get e "image") st Hstr)
        as (st1 & -> & Hb & Hs & Ht & Hr).
      exists 0%nat, "". cbn. rewrite Nat.add_0_r, app_nil_r.
      do 3 (split; [done || lia|]). left. by repeat split. }
  destruct (dict_get e "image") as [| | | |p| |] eqn:Himage; try done.
  assert (fs_exists env p = true) as Hfs by (by inversion Hexists).
  destruct (get_s3_paths_returns env (dict_get e "timestamp") p st)
    as (dp & st1 & -> & Hst1).
  assert (event_buffer st1 = event_buffer st ∧ stats st1 = stats st
          ∧ trace st1 = trace st ∧ requests st1 = requests st)
    as (Hb & Hs & Ht & Hr) by (by destruct Hst1 as [->| ->]).
  cbn [paths_for].
  set (key := "snapshots/" +:+ dp +:+ "/" +:+ PyStr.basename p).
  rewrite upload_image_loop by done. unfold attempt_body.
  destruct (retry_loop_policy env
              (UploadFile (PStr p) (bucket_name env) key "image/jpeg") st1)
    as ((n & Hn & Hshape) & _ & _ & _ & Hrefused & Hfalse).
  destruct (for_range 3 _ _ st1) as [[[]|ex] st2] eqn:Hloop;
    cbn [fst snd] in *.
  - subst st2. exists n, key. cbn. rewrite Hb, Hs, Ht, Hr.
    do 3 (split; [done || lia|]). right; right; left.
    repeat split; [lia|apply prefix_snapshots|done..].
  - destruct Hfalse as [(H0 & H1 & H2) _]; [done|].
    specialize (Hrefused H0 H1 H2). injection Hrefused as ->.
    exists 3%nat, key. cbn. rewrite Hb, Hs, Ht, Hr.
    do 3 (split; [done || lia|]). right; right; right. by repeat split.
  - subst st2. exists n, key. cbn. rewrite Hb, Hs, Ht, Hr.
    do 3 (split; [done || lia|]). left. by repeat split.
Qed.

Lemma census_snapshot (e : Event) (key : string) :
  String.prefix "snapshots/" key = true →
  has_snapshot_key (<["s3_image_path" := PStr key]> e) = true
  ∧ outcome_is "upload_failed" (<["s3_image_path" := PStr key]> e) = false.
Proof.
  intros Hkey. unfold has_snapshot_key, outcome_is.
  rewrite lookup_insert_eq. split; [done|].
  apply String.eqb_neq. intros ->. by vm_compute in Hkey.
Qed.

Lemma census_sentinel (e : Event) (v : string) :
  String.prefix "snapshots/" v = false →
  has_snapshot_key (<["s3_image_path" := PStr v]> e) = false
  ∧ outcome_is "upload_failed" (<["s3_image_path" := PStr v]> e)
    = String.eqb v "upload_failed".
Proof.
  intros Hv. unfold has_snapshot_key, outcome_is.
  by rewrite lookup_insert_eq.
Qed.

(** The statistics one call adds are the census of what it buffers. *)
Lemma process_event_census (env : Env) (e : Event) (st : State) :
  let st' := snd (_process_event env e st) in
  ∃ new : list Event,
    events (event_buffer st') = events (event_buffer st) ++ new
    ∧ (length new ≤ 1)%nat
    ∧ events_received (stats st')
      = (events_received (stats st) + length new)%nat
    ∧ images_uploaded (stats st')
      = (images_uploaded (stats st) + count_if has_snapshot_key new)%nat
    ∧ images_failed (stats st')
      = (images_failed (stats st)
         + count_if (outcome_is "upload_failed") new)%nat
    ∧ batches_uploaded (stats st') = batches_uploaded (stats st)
    ∧ batches_failed (stats st') = batches_failed (stats st).
Proof.
  destruct (process_event_effect env e st)
    as (n & key & _ & _ & _ & Hcases).
  cbn zeta in *.
  destruct Hcases as [[-> ->]|[(_ & -> & ->)|[(_ & Hkey & -> & ->)
                     |(_ & -> & ->)]]].
  - exists []. rewrite app_nil_r. cbn. rewrite !Nat.add_0_r.
    repeat split; lia.
  - exists [<["s3_image_path" := PStr "file_not_found"]> e].
    destruct (census_sentinel e "file_not_found" eq_refl) as [Hk Hf].
    cbn [count_if]. rewrite Hk, Hf. cbn. repeat split; lia.
  - exists [<["s3_image_path" := PStr key]> e].
    destruct (census_snapshot e key Hkey) as [Hk Hf].
    cbn [count_if]. rewrite Hk, Hf. cbn. repeat split; lia.
  - exists [<["s3_image_path" := PStr "upload_failed"]> e].
    destruct (census_sentinel e "upload_failed" eq_refl) as [Hk Hf].
    cbn [count_if]. rewrite Hk, Hf. cbn. repeat split; lia.
Qed.

Lemma count_if_app {A} (f : A → bool) (l l' : list A) :
  count_if f (l ++ l') = (count_if f l + count_if f l')%nat.
Proof. induction l as [|x l IH]; cbn; lia. Qed.

Lemma process_all_snoc (env : Env) (es : list Event) (e : Event)
    (st : State) :
  process_all env (es ++ [e]) st
  = snd (_process_event env e (process_all env es st)).
Proof. unfold process_all. by rewrite foldl_app. Qed.

(** X9: the statistics are the census of the buffer.  Over any sequence
    of published events, [events_received] grows by the number of events
    buffered, [images_uploaded] by the number of those that carry a
    snapshot key and [images_failed] by the number of those that carry
    "upload_failed"; an event given up on an exception counts nowhere, and
    the counters of batches do not move. *)
Theorem statistics_are_census (env : Env) (es : list Event) (st : State) :
  let st' := process_all env es st in
  ∃ new : list Event,
    events (event_buffer st') = events (event_buffer st) ++ new
    ∧ (length new ≤ length es)%nat
    ∧ events_received (stats st')
      = (events_received (stats st) + length new)%nat
    ∧ images_uploaded (stats st')
      = (images_uploaded (stats st) + count_if has_snapshot_key new)%nat
    ∧ images_failed (stats st')
      = (images_failed (stats st)
         + count_if (outcome_is "upload_failed") new)%nat
    ∧ batches_uploaded (stats st') = batches_uploaded (stats st)
    ∧ batches_failed (stats st') = batches_failed (stats st).
Proof.
  cbn zeta. induction es as [|e es IH] using rev_ind.
  - exists []. cbn. rewrite app_nil_r. repeat split; lia.
  - destruct IH as (new & Hev & Hlen & Hrec & Hup & Hfail & Hbu & Hbf).
    rewrite process_all_snoc.
    destruct (process_event_census env e (process_all env es st))
      as (one & Hev1 & Hlen1 & Hrec1 & Hup1 & Hfail1 & Hbu1 & Hbf1).
    cbn zeta in *. exists (new ++ one).
    rewrite Hev1, Hev, Hrec1, Hrec, Hup1, Hup, Hfail1, Hfail, Hbu1, Hbu,
      Hbf1, Hbf, !length_app, !count_if_app, (assoc_L (++)).
    cbn. repeat split; lia.
Qed.

(** On the sample: two events; the first is stored, the second names no
    file. *)
Example statistics_sample :
  let st' :=
    process_all (sample_env_then 0 Success)
      [sample_event; {[ "image" := PStr "/tmp/none.jpg" ]}] sample_state in
  (events_received (stats st'), images_uploaded (stats st'),
   images_failed (stats st'), length (events (event_buffer st')))
  = (2, 1, 0, 2)%nat.
Proof. vm_compute. reflexivity. Qed.

Lemma annotation_inj (e : Event) (v w : string) :
  (<["s3_image_path" := PStr v]> e : Event)
  = <["s3_image_path" := PStr w]> e →
  v = w.
Proof.
  intros Heq.
  assert ((<["s3_image_path" := PStr v]> e : Event) !! "s3_image_path"
          = Some (PStr w)) as Hlook
    by (rewrite Heq; apply lookup_insert_eq).
  rewrite lookup_insert_eq in Hlook. by injection Hlook.
Qed.

(** X10: what an event costs.  The requests [_process_event] sends are
    uploads of the event's own image, as "image/jpeg" and under one key, at
    most three of them with the sleeps of the retry policy in between; it
    never sends an archive and never moves the flush timer.  An event
    buffered as "file_not_found" has cost no request, one buffered as
    "upload_failed" exactly three. *)
Theorem process_event_cost (env : Env) (e : Event) (st : State) :
  ∃ (n : nat) (key : string),
    let st' := snd (_process_event env e st) in
    (n ≤ 3)%nat
    ∧ trace st'
      = trace st
        ++ attempts
             (UploadFile (dict_get e "image") (bucket_name env) key
                "image/jpeg") n
    ∧ requests st' = (requests st + n)%nat
    ∧ last_flush (event_buffer st') = last_flush (event_buffer st)
    ∧ flush_interval (event_buffer st') = flush_interval (event_buffer st)
    ∧ ∀ v : string,
        events (event_buffer st')
        = events (event_buffer st) ++ [<["s3_image_path" := PStr v]> e] →
        (v = "file_not_found" → n = 0%nat)
        ∧ (v = "upload_failed" → n = 3%nat).
Proof.
  destruct (process_event_effect env e st)
    as (n & key & Hn & Htrace & Hreq & Hcases).
  exists n, key. cbn zeta in *.
  do 3 (split; [done|]).
  destruct Hcases as [[Hb _]|[(Hz & Hb & _)|[(_ & Hkey & Hb & _)
                     |(Hz & Hb & _)]]];
    rewrite Hb; cbn; (split; [done|]); (split; [done|]); intros v Hv.
  - apply (f_equal length) in Hv. rewrite length_app in Hv. cbn in Hv. lia.
  - apply app_inv_head in Hv. injection Hv as Hv%annotation_inj. subst v.
    by split.
  - apply app_inv_head in Hv. injection Hv as Hv%annotation_inj. subst v.
    split; intros ->; by vm_compute in Hkey.
  - apply app_inv_head in Hv. injection Hv as Hv%annotation_inj. subst v.
    by split.
Qed.

(** ** Flushing: the idle flush, the failed flush, the whole path *)

Lemma flush_empty_run (env : Env) (json_dumps : Event → string) (st : State) :
  events (event_buffer st) = [] →
  _flush_event_buffer env json_dumps st = (Ret tt, drained env st).
Proof.
  intros Hempty. unfold _flush_event_buffer.
  rewrite bind_run, drain_run. fold (drained env st). cbn beta iota.
  by rewrite Hempty.
Qed.

Lemma flush_nonempty_run (env : Env) (json_dumps : Event → string)
    (st : State) (first : Event) (rest : list Event) :
  events (event_buffer st) = first :: rest →
  ∃ (date_path : string) (st1 : State),
    _get_s3_paths env (dict_get first "timestamp") (PStr "") (drained env st)
    = (Ret (paths_for date_path ""), st1)
    ∧ (st1 = drained env st ∨ st1 = count_read (drained env st))
    ∧ let upload :=
        upload_jsonl env (archive_body json_dumps (first :: rest))
          ("logs/" +:+ date_path +:+ "/events_"
             +:+ strftime_HMS (datetime_now (clock env (reads st1)))
             +:+ ".jsonl") 3 (count_read st1) in
      _flush_event_buffer env json_dumps st
      = (Ret tt,
         set_stats (count_batch (fst upload) (stats (snd upload)))
           (snd upload)).
Proof.
  intros Hpending.
  destruct (get_s3_paths_returns env (dict_get first "timestamp") ""
              (drained env st)) as (dp & st1 & Hpaths & Hst1).
  exists dp, st1. split; [done|]. split; [done|]. cbn zeta.
  unfold _flush_event_buffer. rewrite bind_run, drain_run.
  fold (drained env st). cbn beta iota.
  rewrite Hpending, bool_decide_eq_false_2 by done.
  unfold try_except. rewrite bind_run. cbn [index lookup list_lookup].
  unfold mret at 1, M_ret at 1. rewrite bind_run, Hpaths. cbn [paths_for].
  rewrite bind_run, time_of_day_run. cbn beta iota.
  rewrite bind_run, archive_body_join.
  by destruct (upload_jsonl env _ _ 3 (count_read st1)) as [[[]|e] st2].
Qed.

(** X11: a flush that finds the buffer empty sends nothing and counts
    nothing, yet it restarts the timer: [last_flush] becomes the clock
    reading of the call. *)
Theorem flush_idle (env : Env) (json_dumps : Event → string) (st : State) :
  events (event_buffer st) = [] →
  let st' := snd (_flush_event_buffer env json_dumps st) in
  fst (_flush_event_buffer env json_dumps st) = Ret tt
  ∧ trace st' = trace st
  ∧ requests st' = requests st
  ∧ stats st' = stats st
  ∧ events (event_buffer st') = []
  ∧ last_flush (event_buffer st') = time_time (clock env (reads st)).
Proof. intros Hempty. by rewrite flush_empty_run. Qed.

Lemma flush_idle_sample :
  let st' := snd (_flush_event_buffer (sample_env 0) (λ _, "{}")
                    sample_state) in
  trace st' = [] ∧ last_flush (event_buffer st') = 1000.
Proof.
  destruct (flush_idle (sample_env 0) (λ _, "{}") sample_state eq_refl)
    as (_ & Htrace & _ & _ & _ & Hlast).
  split; [exact Htrace|exact Hlast].
Defined.

(** X12: a failed flush loses the batch.  When events are pending and the
    backend refuses the three attempts, the flush returns normally with the
    buffer empty: nothing is put back.  It has sent three requests and
    slept three seconds, and it counts one failed batch. *)
Theorem flush_failure_drops_batch (env : Env) (json_dumps : Event → string)
    (st : State) :
  events (event_buffer st) ≠ [] →
  (∀ j, (j < 3)%nat →
        backend env (requests st + j)%nat = Fails ClientError) →
  let st' := snd (_flush_event_buffer env json_dumps st) in
  fst (_flush_event_buffer env json_dumps st) = Ret tt
  ∧ events (event_buffer st') = []
  ∧ requests st' = (requests st + 3)%nat
  ∧ slept (trace st') = slept (trace st) + 3
  ∧ batches_failed (stats st') = S (batches_failed (stats st))
  ∧ batches_uploaded (stats st') = batches_uploaded (stats st)
  ∧ events_received (stats st') = events_received (stats st).
Proof.
  intros Hpending Hrefused.
  destruct (events (event_buffer st)) as [|first rest] eqn:Hev; [done|].
  destruct (flush_nonempty_run env json_dumps st first rest Hev)
    as (dp & st1 & _ & Hst1 & Hrun).
  cbn zeta in *. rewrite Hrun. clear Hrun.
  assert (requests st1 = requests st ∧ trace st1 = trace st
          ∧ stats st1 = stats st ∧ events (event_buffer st1) = [])
    as (Hr & Ht & Hs & Hb) by (by destruct Hst1 as [->| ->]).
  rewrite upload_jsonl_loop, loop_gives_up
    by (cbn [requests count_read]; rewrite Hr; exact Hrefused).
  cbn. rewrite Hr, Ht, Hs, Hb, slept_app.
  repeat split; try done; cbn; lia.
Qed.

Lemma flush_failure_drops_batch_sample :
  let st' := snd (_flush_event_buffer (sample_env 3) (λ _, "{}")
                    sample_pending) in
  events (event_buffer st') = []
  ∧ batches_failed (stats st') = 1%nat.
Proof.
  destruct (flush_failure_drops_batch (sample_env 3) (λ _, "{}")
              sample_pending)
    as (_ & Hempty & _ & _ & Hfailed & _).
  - discriminate.
  - intros j Hj. do 3 (destruct j as [|j]; [reflexivity|]). lia.
  - split; [exact Hempty|exact Hfailed].
Defined.

(** A staged event met by an accepting backend is stored at the first
    attempt. *)
Lemma process_event_stored (env : Env) (e : Event) (st : State) :
  staged env e →
  backend env (requests st) = Success →
  let st' := snd (_process_event env e st) in
  ∃ e' : Event,
    stored_as e e'
    ∧ events (event_buffer st') = events (event_buffer st) ++ [e']
    ∧ images_uploaded (stats st') = S (images_uploaded (stats st))
    ∧ batches_uploaded (stats st') = batches_uploaded (stats st)
    ∧ requests st' = S (requests st).
Proof.
  intros (p & Hlook & Hne & Hns & Hfs) Haccept. cbn zeta.
  assert (dict_get e "image" = PStr p) as Himage
    by (unfold dict_get; by rewrite Hlook).
  rewrite process_event_run. cbn zeta. rewrite Himage.
  assert (truthy (PStr p) && ne_str (PStr p) "failed_to_save" = true)
    as ->.
  { cbn. apply andb_true_intro.
    split; by apply negb_true_iff, String.eqb_neq. }
  cbn [negb os_path_exists]. unfold mret at 1, M_ret at 1. rewrite Hfs.
  destruct (get_s3_paths_returns env (dict_get e "timestamp") p st)
    as (dp & st1 & -> & Hst1).
  assert (event_buffer st1 = event_buffer st ∧ stats st1 = stats st
          ∧ requests st1 = requests st)
    as (Hb & Hs & Hr) by (by destruct Hst1 as [->| ->]).
  cbn [paths_for]. rewrite upload_image_loop by done.
  rewrite (loop_ends_at env _ 3 0);
    rewrite ?Nat.add_0_r, ?Hr, ?Haccept; [|lia|lia|done].
  eexists. split; [eexists; split; [|reflexivity]; apply prefix_snapshots|].
  cbn. rewrite Hb, Hs, Hr. repeat split. lia.
Qed.

Lemma process_all_stored (env : Env) (es : list Event) (st : State) :
  (∀ n, backend env n = Success) →
  Forall (staged env) es →
  ∃ es' : list Event,
    Forall2 stored_as es es'
    ∧ events (event_buffer (process_all env es st))
      = events (event_buffer st) ++ es'
    ∧ images_uploaded (stats (process_all env es st))
      = (images_uploaded (stats st) + length es)%nat
    ∧ batches_uploaded (stats (process_all env es st))
      = batches_uploaded (stats st).
Proof.
  intros Haccept. induction es as [|e es IH] using rev_ind; intros Hstaged.
  - exists []. cbn. rewrite app_nil_r. by repeat split; [constructor|lia..].
  - apply Forall_app in Hstaged as [Hes He].
    apply (proj1 (Forall_singleton _ _)) in He.
    destruct (IH Hes) as (es' & Hstored & Hev & Hup & Hbatch).
    rewrite process_all_snoc.
    destruct (process_event_stored env e (process_all env es st) He
                (Haccept _))
      as (e' & He' & Hev' & Hup' & Hbatch' & _).
    cbn zeta in *. exists (es' ++ [e']).
    rewrite Hev', Hev, Hup', Hup, Hbatch', Hbatch, length_app, (assoc_L (++)).
    repeat split; [|cbn; lia].
    apply Forall2_app; [done|]. by constructor.
Qed.

(** X13: the whole path.  With a backend that accepts every request and
    no event pending, events that all have a staged image are processed and
    then flushed: the flush sends one request, an archive of as many lines
    as there were events, in their order, each line the serialisation of
    the event with a snapshot key recorded in it; it leaves the buffer
    empty and counts one uploaded batch and one uploaded image per event. *)
Theorem staged_events_reach_the_archive (env : Env)
    (json_dumps : Event → string) (es : list Event) (st : State) :
  (∀ n, backend env n = Success) →
  Forall (staged env) es →
  es ≠ [] →
  events (event_buffer st) = [] →
  let st1 := process_all env es st in
  let st2 := snd (_flush_event_buffer env json_dumps st1) in
  ∃ (es' : list Event) (s3_key : string),
    Forall2 stored_as es es'
    ∧ trace st2
      = trace st1
        ++ [PutObject (bucket_name env) s3_key (archive_body json_dumps es')
              "application/x-jsonlines"]
    ∧ events (event_buffer st2) = []
    ∧ batches_uploaded (stats st2) = S (batches_uploaded (stats st))
    ∧ images_uploaded (stats st2)
      = (images_uploaded (stats st) + length es)%nat.
Proof.
  intros Haccept Hstaged Hne Hempty. cbn zeta.
  destruct (process_all_stored env es st Haccept Hstaged)
    as (es' & Hstored & Hev & Hup & Hbatch).
  rewrite Hempty in Hev. cbn [app] in Hev.
  destruct es' as [|first rest].
  { apply Forall2_length in Hstored. by destruct es. }
  destruct (flush_nonempty_run env json_dumps (process_all env es st)
              first rest Hev)
    as (dp & st1 & _ & Hst1 & Hrun).
  cbn zeta in Hrun. rewrite Hrun. clear Hrun.
  assert (trace st1 = trace (process_all env es st)
          ∧ stats st1 = stats (process_all env es st)
          ∧ events (event_buffer st1) = [])
    as (Ht & Hs & Hb) by (by destruct Hst1 as [->| ->]).
  rewrite upload_jsonl_loop.
  rewrite (loop_ends_at env _ 3 0); rewrite ?Haccept; [|lia|lia|done].
  eexists (first :: rest), _. split; [done|].
  cbn. rewrite Ht, Hs, Hb, Hup, Hbatch. by repeat split.
Qed.

Lemma staged_events_reach_the_archive_sample :
  let st1 := process_all (sample_env 0) [sample_event; sample_event]
               sample_state in
  let st2 := snd (_flush_event_buffer (sample_env 0) (λ _, "{}") st1) in
  ∃ (es' : list Event) (s3_key : string),
    Forall2 stored_as [sample_event; sample_event] es'
    ∧ trace st2
      = trace st1
        ++ [PutObject "drowsiness-detection-data" s3_key
              (archive_body (λ _, "{}") es') "application/x-jsonlines"]
    ∧ events (event_buffer st2) = [].
Proof.
  destruct (staged_events_reach_the_archive (sample_env 0) (λ _, "{}")
              [sample_event; sample_event] sample_state)
    as (es' & key & Hstored & Htrace & Hempty & _).
  - intros n. reflexivity.
  - repeat constructor; exists "/tmp/img.jpg"; repeat split; done.
  - discriminate.
  - reflexivity.
  - exists es', key. split; [exact Hstored|]. split; [exact Htrace|].
    exact Hempty.
Defined.

(** ** The service around its core *)

Lemma ms_bind_run {A B} (m : MS A) (f : A → MS B) (s : Service) :
  (m ≫= f) s
  = match m s with
    | (Ret a, s') => f a s'
    | (Raise e, s') => (Raise e, s')
    end.
Proof. reflexivity. Qed.

Lemma on_core_run {A} (m : M A) (s : Service) :
  on_core m s = (fst (m (core s)), set_core (snd (m (core s))) s).
Proof. unfold on_core. by destruct (m (core s)). Qed.

Lemma print_stats_run (env : Env) (st : State) :
  _print_stats env st
  = (Ret tt, set_event_buffer (event_buffer st) (count_read st)).
Proof. reflexivity. Qed.

Lemma read_time_run (env : Env) (st : State) :
  (time_time <$> read_clock env) st
  = (Ret (time_time (clock env (reads st))), count_read st).
Proof. reflexivity. Qed.

Lemma process_event_returns (env : Env) (e : Event) (st : State) :
  fst (_process_event env e st) = Ret tt.
Proof.
  rewrite process_event_run. cbn zeta.
  destruct (negb _); [done|].
  destruct (os_path_exists _ _ _) as [[[]|] ?]; try done.
  destruct (_get_s3_paths _ _ _ _) as [[[]|] ?]; try done.
  by destruct (upload_image _ _ _ _ _) as [[[]|] ?].
Qed.

(** What a flush does to the core, whatever it finds. *)
Lemma flush_effect (env : Env) (json_dumps : Event → string) (st : State) :
  ∃ (n : nat) (key : string),
    let st' := snd (_flush_event_buffer env json_dumps st) in
    let put :=
      PutObject (bucket_name env) key
        (archive_body json_dumps (events (event_buffer st)))
        "application/x-jsonlines" in
    fst (_flush_event_buffer env json_dumps st) = Ret tt
    ∧ (n ≤ 3)%nat
    ∧ (events (event_buffer st) = [] ↔ n = 0%nat)
    ∧ trace st' = trace st ++ attempts put n
    ∧ requests st' = (requests st + n)%nat
    ∧ events (event_buffer st') = []
    ∧ flush_interval (event_buffer st') = flush_interval (event_buffer st)
    ∧ last_flush (event_buffer st') = time_time (clock env (reads st)).
Proof.
  destruct (events (event_buffer st)) as [|first rest] eqn:Hev.
  - exists 0%nat, "". cbn zeta. rewrite flush_empty_run by done.
    cbn. rewrite app_nil_r, Nat.add_0_r. repeat split; try done; lia.
  - destruct (flush_nonempty_run env json_dumps st first rest Hev)
      as (dp & st1 & _ & Hst1 & Hrun).
    cbn zeta in Hrun. rewrite Hrun. clear Hrun.
    set (key := "logs/" +:+ dp +:+ _).
    destruct (upload_jsonl_attempts env
                (archive_body json_dumps (first :: rest)) key
                (count_read st1))
      as (n & Hn & ->).
    exists n, key. cbn.
    assert (requests st1 = requests st ∧ trace st1 = trace st
            ∧ event_buffer st1 = event_buffer (drained env st))
      as (-> & -> & ->) by (by destruct Hst1 as [->| ->]).
    repeat split; try done; lia.
Qed.

(** The part of a turn that follows the receipt: it never raises, it naps
    once, and it flushes exactly when the buffer is due at the first
    reading of the clock. *)
Lemma after_receive_run (env : Env) (json_dumps : Event → string)
    (stats_interval last : Z) (s : Service) :
  ∃ (last' : Z) (st' : State),
    after_receive env json_dumps stats_interval last s
    = (Ret last', snd (take_nap short_nap (set_core st' s)))
    ∧ let st := core s in
      let due :=
        flush_interval (event_buffer st)
          <=? time_time (clock env (reads st)) - last_flush (event_buffer st)
      in
      if due then
        ∃ (n : nat) (key : string),
          let put :=
            PutObject (bucket_name env) key
              (archive_body json_dumps (events (event_buffer st)))
              "application/x-jsonlines" in
          (n ≤ 3)%nat
          ∧ (events (event_buffer st) = [] ↔ n = 0%nat)
          ∧ trace st' = trace st ++ attempts put n
          ∧ requests st' = (requests st + n)%nat
          ∧ events (event_buffer st') = []
          ∧ flush_interval (event_buffer st')
            = flush_interval (event_buffer st)
          ∧ last_flush (event_buffer st')
            = time_time (clock env (S (reads st)))
      else
        event_buffer st' = event_buffer st
        ∧ trace st' = trace st
        ∧ requests st' = requests st
        ∧ stats st' = stats st.
Proof.
  unfold after_receive. rewrite ms_bind_run, on_core_run.
  cbn [fst snd].
  change ((now ← time_time <$> read_clock env;
           on_buffer (should_flush now)) (core s))
    with (Ret (flush_interval (event_buffer (core s))
               <=? time_time (clock env (reads (core s)))
                   - last_flush (event_buffer (core s))),
          set_event_buffer (event_buffer (core s)) (count_read (core s))).
  cbn [fst snd]. cbn zeta.
  set (st0 := set_event_buffer _ _).
  assert (∃ st1 : State,
            (if flush_interval (event_buffer (core s))
                <=? time_time (clock env (reads (core s)))
                    - last_flush (event_buffer (core s))
             then on_core (_flush_event_buffer env json_dumps)
             else mret tt) (set_core st0 s)
            = (Ret tt, set_core st1 s)
            ∧ if flush_interval (event_buffer (core s))
                 <=? time_time (clock env (reads (core s)))
                     - last_flush (event_buffer (core s))
              then
                ∃ (n : nat) (key : string),
                  (n ≤ 3)%nat
                  ∧ (events (event_buffer (core s)) = [] ↔ n = 0%nat)
                  ∧ trace st1
                    = trace (core s)
                      ++ attempts
                           (PutObject (bucket_name env) key
                              (archive_body json_dumps
                                 (events (event_buffer (core s))))
                              "application/x-jsonlines") n
                  ∧ requests st1 = (requests (core s) + n)%nat
                  ∧ events (event_buffer st1) = []
                  ∧ flush_interval (event_buffer st1)
                    = flush_interval (event_buffer (core s))
                  ∧ last_flush (event_buffer st1)
                    = time_time (clock env (S (reads (core s))))
              else
                event_buffer st1 = event_buffer (core s)
                ∧ trace st1 = trace (core s)
                ∧ requests st1 = requests (core s)
                ∧ stats st1 = stats (core s))
    as (st1 & Hflush & Hst1).
  { destruct (_ <=? _).
    - destruct (flush_effect env json_dumps st0)
        as (n & key & Hret & Hn & Hzero & Htr & Hreq & Hev & Hint & Hlast).
      exists (snd (_flush_event_buffer env json_dumps st0)).
      split.
      + rewrite on_core_run. cbn [core set_core]. by rewrite Hret.
      + exists n, key. repeat split; try done; apply Hzero.
    - exists st0. by repeat split. }
  rewrite ms_bind_run, Hflush. clear Hflush.
  rewrite ms_bind_run, on_core_run, read_time_run.
  cbn [core set_core fst snd]. rewrite ms_bind_run.
  destruct (stats_interval <? _).
  - rewrite ms_bind_run, on_core_run, print_stats_run.
    cbn [core set_core fst snd]. rewrite on_core_run, read_time_run.
    cbn [core set_core fst snd]. rewrite ms_bind_run.
    eexists _, _. split; [reflexivity|].
    cbn zeta. destruct (_ <=? _); [|done].
    destruct Hst1 as (n & key & ?). by exists n, key.
  - cbn [mret MS_ret]. rewrite ms_bind_run.
    eexists _, _. split; [reflexivity|].
    cbn zeta. destruct (_ <=? _); [|done].
    destruct Hst1 as (n & key & ?). by exists n, key.
Qed.

(** What the receiving part of a turn hands to the rest of it. *)
Lemma iteration_run (env : Env) (json_dumps : Event → string)
    (inbox : Inbox) (stats_interval last : Z) (s : Service) :
  reaches_flush_check inbox s = true →
  iteration env json_dumps inbox stats_interval last s
  = handled last
      (after_receive env json_dumps stats_interval last
         (set_core (received_core env inbox s) (polled s))).
Proof.
  unfold reaches_flush_check, iteration, received_core.
  destruct (recv_string inbox (polls s)) as [m| |]; [|by destruct s|done].
  destruct (json_loads inbox m) as [e| | |]; [|by destruct s|done..].
  intros _. rewrite ms_bind_run, on_core_run.
  change (core (polled s)) with (core s).
  by rewrite process_event_returns.
Qed.

Lemma flush_returns (env : Env) (json_dumps : Event → string) (st : State) :
  fst (_flush_event_buffer env json_dumps st) = Ret tt.
Proof. by destruct (flush_effect env json_dumps st) as (? & ? & ? & _). Qed.

Lemma shutdown_run (env : Env) (json_dumps : Event → string) (s : Service) :
  shutdown env json_dumps s
  = let st0 := set_event_buffer (event_buffer (core s)) (core s) in
    let st1 :=
      if (0 <? length (events (event_buffer (core s))))%nat
      then snd (_flush_event_buffer env json_dumps st0)
      else st0 in
    (Ret tt,
     {| core := set_event_buffer (event_buffer st1) (count_read st1);
        running := false;
        subscriber_closed := true;
        context_terminated := true;
        polls := polls s;
        naps := naps s |}).
Proof.
  unfold shutdown. rewrite ms_bind_run. cbn [set_running].
  rewrite ms_bind_run, on_core_run.
  cbn [core on_buffer get_count fst snd set_core running
       subscriber_closed context_terminated polls naps].
  cbn zeta. rewrite ms_bind_run.
  destruct (0 <? _)%nat.
  - rewrite on_core_run. cbn [core]. by rewrite flush_returns.
  - reflexivity.
Qed.

(** X14: [shutdown] always completes, and it leaves nothing buffered.  It
    stops the loop, closes the socket and terminates the context.  With an
    empty buffer it sends nothing and leaves the timer of the flush alone;
    with events pending it makes one to three attempts at putting one
    archive of all of them, and the buffer is empty afterwards whether or
    not an attempt succeeded. *)
Theorem shutdown_empties_buffer (env : Env) (json_dumps : Event → string)
    (s : Service) :
  ∃ (n : nat) (key : string),
    let s' := snd (shutdown env json_dumps s) in
    let pending := events (event_buffer (core s)) in
    let put :=
      PutObject (bucket_name env) key (archive_body json_dumps pending)
        "application/x-jsonlines" in
    fst (shutdown env json_dumps s) = Ret tt
    ∧ running s' = false
    ∧ subscriber_closed s' = true
    ∧ context_terminated s' = true
    ∧ events (event_buffer (core s')) = []
    ∧ (n ≤ 3)%nat
    ∧ (pending = [] ↔ n = 0%nat)
    ∧ trace (core s') = trace (core s) ++ attempts put n
    ∧ requests (core s') = (requests (core s) + n)%nat
    ∧ (pending = [] →
       last_flush (event_buffer (core s'))
       = last_flush (event_buffer (core s))).
Proof.
  rewrite shutdown_run. cbn [fst snd core running subscriber_closed
                             context_terminated].
  set (st0 := set_event_buffer _ (core s)).
  destruct (events (event_buffer (core s))) as [|first rest] eqn:Hev.
  - exists 0%nat, "". cbn. rewrite app_nil_r, Nat.add_0_r, Hev.
    repeat split; try done; lia.
  - cbn [length Nat.ltb Nat.leb].
    destruct (flush_effect env json_dumps st0)
      as (n & key & _ & Hn & Hzero & Htr & Hreq & Hempty & _).
    cbn zeta in *. exists n, key. cbn in *. rewrite Hev in *.
    repeat split; try done; apply Hzero.
Qed.

(** X15: text that is not JSON starves the loop.  As long as every message
    polled fails to decode, the turns of the loop do nothing but poll: the
    core is untouched, so a buffer that is due is not flushed, the
    statistics are not printed, and no pause is taken between two polls. *)
Theorem undecodable_messages_starve_the_loop (env : Env)
    (json_dumps : Event → string) (inbox : Inbox) (stats_interval : Z)
    (n : nat) (last : Z) (s : Service) :
  running s = true →
  (∀ j, (j < n)%nat →
        ∃ m, recv_string inbox (polls s + j)%nat = message m
             ∧ json_loads inbox m = decode_error) →
  let r := turns env json_dumps inbox stats_interval n last s in
  fst r = last
  ∧ core (snd r) = core s
  ∧ naps (snd r) = naps s
  ∧ polls (snd r) = (polls s + n)%nat
  ∧ running (snd r) = true.
Proof.
  revert s. induction n as [|n IH]; intros s Hrun Hnoise; cbn zeta.
  - cbn. by rewrite Nat.add_0_r.
  - cbn [turns]. rewrite Hrun. unfold iteration.
    destruct (Hnoise 0%nat ltac:(lia)) as (m & Hm & Hdec).
    rewrite Nat.add_0_r in Hm. rewrite Hm, Hdec.
    destruct (IH (polled s)) as (-> & -> & -> & -> & ->); [done| |].
    + intros j Hj. destruct (Hnoise (S j) ltac:(lia)) as (m' & Hm' & Hdec').
      exists m'. split; [|done]. cbn [polls polled].
      by rewrite <- Hm', Nat.add_succ_r.
    + cbn. repeat split; (done || lia).
Qed.

Lemma undecodable_messages_starve_the_loop_sample :
  let r := turns (sample_env 0) (λ _, "{}") noisy_inbox 300 5 1000
             sample_service in
  core (snd r) = core sample_service ∧ naps (snd r) = [].
Proof.
  destruct (undecodable_messages_starve_the_loop (sample_env 0) (λ _, "{}")
              noisy_inbox 300 5 1000 sample_service)
    as (_ & Hcore & Hnaps & _).
  - reflexivity.
  - intros j _. exists "not json". split; reflexivity.
  - split; [exact Hcore|exact Hnaps].
Defined.


(** X17: a turn flushes exactly when the buffer is due.  In a turn that
    gets past the receipt, the buffer is judged at the reading of the clock
    that follows the processing of the message.  When the interval has
    elapsed the buffer is drained, its timer is set to the next reading, and
    the events, the one just received among them, go into one archive that
    is attempted one to three times (not at all when none was pending).
    Otherwise the buffer is left as the receipt left it and nothing is
    sent. *)
Theorem turn_flushes_iff_due (env : Env) (json_dumps : Event → string)
    (inbox : Inbox) (stats_interval last : Z) (s : Service) :
  reaches_flush_check inbox s = true →
  let st := received_core env inbox s in
  let st' :=
    core (snd (iteration env json_dumps inbox stats_interval last s)) in
  let due :=
    flush_interval (event_buffer st)
      <=? time_time (clock env (reads st)) - last_flush (event_buffer st) in
  if due then
    ∃ (n : nat) (key : string),
      let put :=
        PutObject (bucket_name env) key
          (archive_body json_dumps (events (event_buffer st)))
          "application/x-jsonlines" in
      (n ≤ 3)%nat
      ∧ (events (event_buffer st) = [] ↔ n = 0%nat)
      ∧ trace st' = trace st ++ attempts put n
      ∧ events (event_buffer st') = []
      ∧ flush_interval (event_buffer st') = flush_interval (event_buffer st)
      ∧ last_flush (event_buffer st') = time_time (clock env (S (reads st)))
  else
    event_buffer st' = event_buffer st
    ∧ trace st' = trace st
    ∧ requests st' = requests st
    ∧ stats st' = stats st.
Proof.
  intros Hreach. cbn zeta. rewrite iteration_run by done.
  destruct (after_receive_run env json_dumps stats_interval last
              (set_core (received_core env inbox s) (polled s)))
    as (last' & st' & -> & Hspec).
  cbn [handled snd take_nap core set_core] in *.
  destruct (_ <=? _); [|done].
  destruct Hspec as (n & key & Hn & Hzero & Htr & _ & Hev & Hint & Hlast).
  by exists n, key.
Qed.

Lemma turn_flushes_iff_due_sample :
  let st' :=
    core (snd (iteration (sample_env 0) (λ _, "{}") quiet_inbox 300 1000
                 sample_service)) in
  ∃ (n : nat) (key : string),
    (n ≤ 3)%nat
    ∧ (events (event_buffer (core sample_service)) = [] ↔ n = 0%nat)
    ∧ trace st'
      = attempts
          (PutObject "drowsiness-detection-data" key
             (archive_body (λ _, "{}")
                (events (event_buffer (core sample_service))))
             "application/x-jsonlines") n
    ∧ events (event_buffer st') = []
    ∧ flush_interval (event_buffer st') = 60
    ∧ last_flush (event_buffer st') = 1001.
Proof.
  exact (turn_flushes_iff_due (sample_env 0) (λ _, "{}") quiet_inbox 300
           1000 sample_service eq_refl).
Defined.
